(** * Hytale dashboard worker: a shallow embedding of [worker.py]

    The worker reads the game server's journal, derives player presence and
    performance samples from it and keeps them in an SQLite database.  This
    file embeds the parts of [worker.py] that decide what ends up in the
    database and proves properties of them: [run_cmd], [get_java_pid],
    [collect_performance], [save_performance], [parse_player_events],
    [check_player_events], [cleanup_old_data] and the loop of [main].
    The schema creation of [init_db] shows in the record types;
    [initial_player_sync] is not embedded.

    Conventions of the embedding.
    - Python [str] values are Rocq [string]s.  Character classes ([\d], [\w],
      [\s], line boundaries) follow Python on the 7-bit ASCII range; text with
      other characters is outside the model.
    - An SQLite table with a primary key is a [gmap] from the key to the rest
      of the row; a table with an AUTOINCREMENT id is the list of its rows in
      insertion order, together with the last id handed out.
    - A nullable column is an [option]; [None] is SQL NULL and Python [None].
    - The database is the one the worker's connection sees, its own writes
      included whether committed or not; commits are kept in a trace.
    - The readings of [time.time()] are rationals.
    - What the worker cannot decide by itself (the result of a subprocess, the
      clock, Python's [float]) enters as an explicit argument. *)

From Stdlib Require Import ZArith QArith String Ascii List Bool Lia.
From stdpp Require Import base option list strings pretty gmap sorting.

Local Open Scope Z_scope.

(** ** Python text primitives *)

Module Text.

Definition ord (c : ascii) : N := N_of_ascii c.

Definition between (lo hi : N) (c : ascii) : bool :=
  ((lo <=? ord c) && (ord c <=? hi))%N.

(** [str.isspace] on ASCII: TAB, LF, VT, FF, CR, FS, GS, RS, US and space. *)
Definition isspace (c : ascii) : bool := between 9 13 c || between 28 32 c.

(** [\d] on ASCII. *)
Definition isdigit (c : ascii) : bool := between 48 57 c.

(** [\w] on ASCII: letters, digits and the underscore. *)
Definition isword (c : ascii) : bool :=
  isdigit c || between 65 90 c || between 97 122 c || (ord c =? 95)%N.

(** The line boundaries of [str.splitlines] on ASCII: LF, VT, FF, CR, FS, GS
    and RS.  CR followed by LF is one boundary. *)
Definition islinebreak (c : ascii) : bool := between 10 13 c || between 28 30 c.

Definition is_empty (s : string) : bool :=
  match s with EmptyString => true | String _ _ => false end.

Fixpoint lstrip (s : string) : string :=
  match s with
  | EmptyString => EmptyString
  | String c s' => if isspace c then lstrip s' else s
  end.

Fixpoint rstrip (s : string) : string :=
  match s with
  | EmptyString => EmptyString
  | String c s' =>
      let r := rstrip s' in
      if is_empty r && isspace c then EmptyString else String c r
  end.

(** [s.strip()] *)
Definition strip (s : string) : string := rstrip (lstrip s).

Definition snoc (s : string) (c : ascii) : string := s +:+ String c EmptyString.

(** [s.split()]: the maximal runs of non-blank characters, in order.  [cur]
    is the run being read. *)
Fixpoint split_from (cur : string) (s : string) : list string :=
  match s with
  | EmptyString => if is_empty cur then [] else [cur]
  | String c s' =>
      if isspace c
      then (if is_empty cur then split_from EmptyString s'
            else cur :: split_from EmptyString s')
      else split_from (snoc cur c) s'
  end.

Definition split (s : string) : list string := split_from EmptyString s.

(** [s.splitlines()]: a line ends at a boundary; the text after the last
    boundary is a line only when it is not empty. *)
Fixpoint splitlines_from (cur : string) (s : string) : list string :=
  match s with
  | EmptyString => if is_empty cur then [] else [cur]
  | String c s' =>
      if islinebreak c then
        match s' with
        | String d s'' =>
            if ((ord c =? 13) && (ord d =? 10))%N
            then cur :: splitlines_from EmptyString s''
            else cur :: splitlines_from EmptyString s'
        | EmptyString => cur :: splitlines_from EmptyString s'
        end
      else splitlines_from (snoc cur c) s'
  end.

Definition splitlines (s : string) : list string := splitlines_from EmptyString s.

(** [int(d)] for a string of decimal digits.  (CPython 3.11 and later
    refuse runs of more than 4300 digits; such text is outside the model.) *)
Definition digit_value (c : ascii) : Z := Z.of_N (ord c) - 48.

Fixpoint int_from (acc : Z) (s : string) : Z :=
  match s with
  | EmptyString => acc
  | String c s' => int_from (10 * acc + digit_value c) s'
  end.

Definition int_of_digits (s : string) : Z := int_from 0 s.

(** Text comparison as SQLite's BINARY collation and Python's [<] on [str] do
    it for ASCII text: lexicographic on the character codes. *)
Definition lt (a b : string) : bool := String.ltb a b.

End Text.

(** ** The fragment of Python's [re] the worker uses

    A backtracking matcher in continuation-passing style: [exec r s k caps]
    matches [r] at the front of [s] and hands the rest of the text and the
    groups captured so far to [k]; a [None] from [k] makes the matcher try
    its next alternative, in the order Python's engine tries them (greedy:
    longest first; lazy: shortest first; alternation: left first). *)

Module Re.

Inductive re : Type :=
| Lit (s : string)                         (* literal text *)
| Chr (f : ascii -> bool)                  (* one character of a class *)
| Seq (a b : re)
| Alt (a b : re)                           (* a|b *)
| Many (greedy : bool) (f : ascii -> bool) (* c* and c*? *)
| Opt (a : re)                             (* (?:a)? *)
| Group (a : re)                           (* (a) *)
| Eol.                                     (* $ *)

Definition K := string -> list string -> option (list string).

Fixpoint lit (p s : string) : option string :=
  match p with
  | EmptyString => Some s
  | String a p' =>
      match s with
      | String b s' => if Ascii.eqb a b then lit p' s' else None
      | EmptyString => None
      end
  end.

Definition orelse {A} (x y : option A) : option A :=
  match x with Some a => Some a | None => y end.

Fixpoint many_greedy (f : ascii -> bool) (k : string -> option (list string))
    (s : string) : option (list string) :=
  match s with
  | String c s' => if f c then orelse (many_greedy f k s') (k s) else k s
  | EmptyString => k s
  end.

Fixpoint many_lazy (f : ascii -> bool) (k : string -> option (list string))
    (s : string) : option (list string) :=
  match k s with
  | Some r => Some r
  | None =>
      match s with
      | String c s' => if f c then many_lazy f k s' else None
      | EmptyString => None
      end
  end.

(** The text [a] matched when it turned [s] into its suffix [s']. *)
Definition consumed (s s' : string) : string :=
  String.substring 0 (String.length s - String.length s') s.

Fixpoint exec (r : re) (s : string) (k : K) (caps : list string)
    : option (list string) :=
  match r with
  | Lit p => match lit p s with Some s' => k s' caps | None => None end
  | Chr f =>
      match s with
      | String c s' => if f c then k s' caps else None
      | EmptyString => None
      end
  | Seq a b => exec a s (fun s' caps' => exec b s' k caps') caps
  | Alt a b => orelse (exec a s k caps) (exec b s k caps)
  | Many true f => many_greedy f (fun s' => k s' caps) s
  | Many false f => many_lazy f (fun s' => k s' caps) s
  | Opt a => orelse (exec a s k caps) (k s caps)
  | Group a => exec a s (fun s' caps' => k s' (caps' ++ [consumed s s'])) caps
  | Eol =>
      match s with
      | EmptyString => k s caps
      | String c EmptyString => if (Text.ord c =? 10)%N then k s caps else None
      | _ => None
      end
  end.

(** [r.search(s)]: the groups of the leftmost match. *)
Fixpoint search (r : re) (s : string) : option (list string) :=
  match exec r s (fun _ caps => Some caps) [] with
  | Some caps => Some caps
  | None =>
      match s with
      | String _ s' => search r s'
      | EmptyString => None
      end
  end.

Definition plus (f : ascii -> bool) : re := Seq (Chr f) (Many true f).
Definition plus_lazy (f : ascii -> bool) : re := Seq (Chr f) (Many false f).

Fixpoint seqs (rs : list re) : re :=
  match rs with
  | [] => Lit EmptyString
  | [r] => r
  | r :: rs' => Seq r (seqs rs')
  end.

Definition times (n : nat) (r : re) : re := seqs (repeat r n).

Definition only (c : ascii) : ascii -> bool := Ascii.eqb c.
Definition except (c : ascii) : ascii -> bool := fun d => negb (Ascii.eqb c d).

(** [.] matches everything but a line feed. *)
Definition dot : ascii -> bool := fun c => negb (Text.ord c =? 10)%N.
(** [\S] *)
Definition nonspace : ascii -> bool := fun c => negb (Text.isspace c).

End Re.

(** ** Data model *)

(** The exceptions the embedded functions can let through, and a result that
    carries one.  (The ValueError of a parse is caught where it is raised and
    shows as a [None] of the parser.) *)
Inductive Exn : Type :=
| IndexError
| OverflowError.

Inductive Result (A : Type) : Type :=
| Ok (a : A)
| Raise (e : Exn).
Arguments Ok {A} a.
Arguments Raise {A} e.

#[global] Instance result_fmap : FMap Result := fun A B f m =>
  match m with Ok a => Ok (f a) | Raise e => Raise e end.
#[global] Instance result_bind : MBind Result := fun A B f m =>
  match m with Ok a => f a | Raise e => Raise e end.

(** An event as [parse_player_events] builds it: the dict with the keys
    timestamp, name, world, uuid and type. *)
Module Event.
Inductive kind : Type := join | leave.
Record t : Type := mk {
  timestamp : string;
  name : string;
  world : option string;
  uuid : string;
  type : kind
}.
Definition kind_text (k : kind) : string :=
  match k with join => "join" | leave => "leave" end.
End Event.

(** Table [players], keyed by uuid. *)
Module Players.
Record row : Type := mk {
  name : string;
  online : Z;
  last_login : option string;
  last_logout : option string;
  world : option string;
  total_playtime_seconds : Z
}.
End Players.

(** Table [player_events]. *)
Module PlayerEvents.
Record row : Type := mk {
  id : Z;
  timestamp : string;
  uuid : string;
  name : string;
  event_type : string;
  world : option string
}.
End PlayerEvents.

(** Table [performance]; [F] stands for Python's [float] and SQLite's REAL. *)
Module Performance.
Record row (F : Type) : Type := mk {
  id : Z;
  timestamp : string;
  tps : option Z;
  cpu_percent : option F;
  ram_mb : option F;
  ram_percent : option F;
  view_radius : option Z;
  players_online : Z
}.
Arguments mk {F}.
Arguments id {F}.
Arguments timestamp {F}.
Arguments tps {F}.
Arguments cpu_percent {F}.
Arguments ram_mb {F}.
Arguments ram_percent {F}.
Arguments view_radius {F}.
Arguments players_online {F}.
End Performance.

(** The dict [collect_performance] returns. *)
Module Perf.
Record t (F : Type) : Type := mk {
  tps : option Z;
  cpu_percent : option F;
  ram_mb : option F;
  ram_percent : option F;
  view_radius : option Z
}.
Arguments mk {F}.
Arguments tps {F}.
Arguments cpu_percent {F}.
Arguments ram_mb {F}.
Arguments ram_percent {F}.
Arguments view_radius {F}.

Definition set_tps {F} (v : Z) (r : t F) : t F :=
  mk (Some v) (cpu_percent r) (ram_mb r) (ram_percent r) (view_radius r).
Definition set_view_radius {F} (v : Z) (r : t F) : t F :=
  mk (tps r) (cpu_percent r) (ram_mb r) (ram_percent r) (Some v).
Definition set_cpu_percent {F} (v : F) (r : t F) : t F :=
  mk (tps r) (Some v) (ram_mb r) (ram_percent r) (view_radius r).
Definition set_ram_percent {F} (v : F) (r : t F) : t F :=
  mk (tps r) (cpu_percent r) (ram_mb r) (Some v) (view_radius r).
Definition set_ram_mb {F} (v : F) (r : t F) : t F :=
  mk (tps r) (cpu_percent r) (Some v) (ram_percent r) (view_radius r).
End Perf.

(** What the connection does besides reading and writing rows, in order. *)
Inductive Effect : Type :=
| Commit
| WalCheckpoint
| Print (line : string).

(** The database as the worker's connection sees it, with the trace of its
    commits, pragmas and printed lines. *)
Record Conn (F : Type) : Type := mkConn {
  players : gmap string Players.row;
  performance : list (Performance.row F);
  performance_seq : Z;
  player_events : list PlayerEvents.row;
  player_events_seq : Z;
  metadata : gmap string string;
  effects : list Effect
}.
Arguments mkConn {F}.
Arguments players {F}.
Arguments performance {F}.
Arguments performance_seq {F}.
Arguments player_events {F}.
Arguments player_events_seq {F}.
Arguments metadata {F}.
Arguments effects {F}.

Definition set_players {F} (v : gmap string Players.row) (c : Conn F) : Conn F :=
  mkConn v (performance c) (performance_seq c) (player_events c)
    (player_events_seq c) (metadata c) (effects c).
Definition set_performance {F} (v : list (Performance.row F)) (seq : Z)
    (c : Conn F) : Conn F :=
  mkConn (players c) v seq (player_events c) (player_events_seq c)
    (metadata c) (effects c).
Definition set_player_events {F} (v : list PlayerEvents.row) (seq : Z)
    (c : Conn F) : Conn F :=
  mkConn (players c) (performance c) (performance_seq c) v seq
    (metadata c) (effects c).
Definition set_metadata {F} (v : gmap string string) (c : Conn F) : Conn F :=
  mkConn (players c) (performance c) (performance_seq c) (player_events c)
    (player_events_seq c) v (effects c).
Definition effect {F} (e : Effect) (c : Conn F) : Conn F :=
  mkConn (players c) (performance c) (performance_seq c) (player_events c)
    (player_events_seq c) (metadata c) (effects c ++ [e]).

Definition commit {F} : Conn F -> Conn F := effect Commit.
Definition print {F} (line : string) : Conn F -> Conn F := effect (Print line).

(** A Python dict with [str] keys: its items in insertion order. *)
Module Dict.

Fixpoint get {V} (k : string) (d : list (string * V)) : option V :=
  match d with
  | [] => None
  | (k', v) :: d' => if decide (k = k') then Some v else get k d'
  end.

(** [d[k] = v]: the value of an old key is replaced where it stands, a new
    key goes to the end. *)
Fixpoint set {V} (k : string) (v : V) (d : list (string * V)) : list (string * V) :=
  match d with
  | [] => [(k, v)]
  | (k', v') :: d' =>
      if decide (k = k') then (k', v) :: d' else (k', v') :: set k v d'
  end.

(** [d[k][field] = x]: the value stored under [k] is changed where it
    stands. *)
Definition alter {V} (f : V -> V) (k : string) (d : list (string * V))
    : list (string * V) :=
  (fun kv => if decide (k = kv.1) then (kv.1, f kv.2) else kv) <$> d.

Definition values {V} (d : list (string * V)) : list V := d.*2.

End Dict.

(** The dict [initial_player_sync] keeps for one player. *)
Module Synced.
Record t : Type := mk {
  uuid : string;
  name : string;
  online : bool;
  last_login : option string;
  last_logout : option string;
  world : option string
}.
End Synced.

(** ** The worker *)

Module Worker.

(** Configuration *)
Definition SERVICE_NAME : string := "hytale".
Definition PERF_INTERVAL : Q := 5.
Definition PLAYER_INTERVAL : Q := 10.
Definition CLEANUP_INTERVAL : Q := 3600.
Definition PERF_RETENTION_HOURS : Z := 24.

(** The four patterns, written as the source writes them. *)
Definition digit : Re.re := Re.Chr Text.isdigit.
Definition hexdash (c : ascii) : bool :=
  Text.between 97 102 c || Text.isdigit c || Re.only "-" c.

(** [Setting TPS of world \w+ to (\d+)] *)
Definition tps_re : Re.re :=
  Re.seqs [Re.Lit "Setting TPS of world "; Re.plus Text.isword; Re.Lit " to ";
           Re.Group (Re.plus Text.isdigit)].

(** [(?:Initial view radius is|View radius.*?to) (\d+)] *)
Definition vr_re : Re.re :=
  Re.seqs [Re.Alt (Re.Lit "Initial view radius is")
                  (Re.seqs [Re.Lit "View radius"; Re.Many false Re.dot; Re.Lit "to"]);
           Re.Lit " "; Re.Group (Re.plus Text.isdigit)].

(** [(\d{4}-\d{2}-\d{2}T\S+)] *)
Definition iso_stamp : Re.re :=
  Re.Group (Re.seqs [Re.times 4 digit; Re.Lit "-"; Re.times 2 digit; Re.Lit "-";
                     Re.times 2 digit; Re.Lit "T"; Re.plus Re.nonspace]).

(** [(\d{4}-\d{2}-\d{2}T\S+).*Adding player '([^']+)' to world '([^']+)' at location .+\(([a-f0-9-]+)\)] *)
Definition join_re : Re.re :=
  Re.seqs [iso_stamp; Re.Many true Re.dot; Re.Lit "Adding player '";
           Re.Group (Re.plus (Re.except "'")); Re.Lit "' to world '";
           Re.Group (Re.plus (Re.except "'")); Re.Lit "' at location ";
           Re.plus Re.dot; Re.Lit "("; Re.Group (Re.plus hexdash); Re.Lit ")"].

(** [(\d{4}-\d{2}-\d{2}T\S+).*Removing player '([^']+?)(?:\s*\([^)]+\))?'.*\(([a-f0-9-]+)\)\s*$] *)
Definition leave_re : Re.re :=
  Re.seqs [iso_stamp; Re.Many true Re.dot; Re.Lit "Removing player '";
           Re.Group (Re.plus_lazy (Re.except "'"));
           Re.Opt (Re.seqs [Re.Many true Text.isspace; Re.Lit "(";
                            Re.plus (Re.except ")"); Re.Lit ")"]);
           Re.Lit "'"; Re.Many true Re.dot; Re.Lit "(";
           Re.Group (Re.plus hexdash); Re.Lit ")"; Re.Many true Text.isspace;
           Re.Eol].

(** [parse_player_events]: one event per line that matches, a join tried
    first. *)
Definition parse_line (line : string) : option Event.t :=
  match Re.search join_re line with
  | Some [ts; nm; w; u] => Some (Event.mk ts nm (Some w) u Event.join)
  | _ =>
      match Re.search leave_re line with
      | Some [ts; nm; u] => Some (Event.mk ts nm None u Event.leave)
      | _ => None
      end
  end.

Definition parse_player_events (output : string) : list Event.t :=
  omap parse_line (Text.splitlines output).

Section Host.

(** The host: Python's [float], [int] and [/] (a [None] is the ValueError of
    a parse, the OverflowError of a division), [subprocess.run] (the stdout
    and return code, or the message of the exception it raised) and SQLite's
    [datetime('now', modifier)]. *)
Context {F : Type}.
Variable py_float : string -> option F.
Variable py_int : string -> option Z.
Variable py_truediv : Z -> Z -> option F.
Variable subprocess_run : list string -> Z -> (string * Z) + string.
Variable sql_datetime_now : string -> string.

Definition run_cmd (cmd : list string) (timeout : Z) : string * Z :=
  match subprocess_run cmd timeout with
  | inl (stdout, returncode) => (Text.strip stdout, returncode)
  | inr e => (e, 1)
  end.

(** [output.split()[0]] *)
Definition first_word (output : string) : Result string :=
  match Text.split output with
  | w :: _ => Ok w
  | [] => Raise IndexError
  end.

Definition get_java_pid : Result (option string) :=
  let '(output, rc) :=
    run_cmd ["systemctl"; "show"; SERVICE_NAME; "--property=MainPID"; "--value"] 10 in
  if negb (rc =? 0) || Text.is_empty output || String.eqb output "0" then Ok None
  else
    let wrapper_pid := Text.strip output in
    let '(output, rc) := run_cmd ["pgrep"; "-P"; wrapper_pid; "java"] 10 in
    if (rc =? 0) && negb (Text.is_empty output) then Some <$> first_word output
    else
      let '(output, rc) := run_cmd ["pgrep"; "-f"; "HytaleServer.jar"] 10 in
      if (rc =? 0) && negb (Text.is_empty output) then Some <$> first_word output
      else Ok None.

(** The body of the loop over the reversed journal lines. *)
Definition scan_line (line : string) (result : Perf.t F) : Perf.t F :=
  let result :=
    match Perf.tps result with
    | None =>
        match Re.search tps_re line with
        | Some (g :: _) => Perf.set_tps (Text.int_of_digits g) result
        | _ => result
        end
    | Some _ => result
    end in
  match Perf.view_radius result with
  | None =>
      match Re.search vr_re line with
      | Some (g :: _) => Perf.set_view_radius (Text.int_of_digits g) result
      | _ => result
      end
  | Some _ => result
  end.

Definition both_found (result : Perf.t F) : bool :=
  bool_decide (is_Some (Perf.tps result)) && bool_decide (is_Some (Perf.view_radius result)).

(** The loop, with the number of lines it read before it stopped. *)
Fixpoint scan (lines : list string) (result : Perf.t F) : Perf.t F * nat :=
  match lines with
  | [] => (result, 0%nat)
  | line :: rest =>
      let result := scan_line line result in
      if both_found result then (result, 1%nat)
      else let '(r, n) := scan rest result in (r, S n)
  end.

(** The [try] block that reads the three columns of [ps]. *)
Definition read_ps (parts : list string) (result : Perf.t F) : Result (Perf.t F) :=
  match parts !! 0%nat with
  | None => Ok result
  | Some p0 =>
      match py_float p0 with
      | None => Ok result
      | Some cpu =>
          let result := Perf.set_cpu_percent cpu result in
          match parts !! 1%nat with
          | None => Ok result
          | Some p1 =>
              match py_float p1 with
              | None => Ok result
              | Some mem =>
                  let result := Perf.set_ram_percent mem result in
                  match parts !! 2%nat with
                  | None => Ok result
                  | Some p2 =>
                      match py_int p2 with
                      | None => Ok result
                      | Some rss =>
                          match py_truediv rss 1024 with
                          | None => Raise OverflowError
                          | Some mb => Ok (Perf.set_ram_mb mb result)
                          end
                      end
                  end
              end
          end
      end
  end.

Definition collect_performance : Result (Perf.t F) :=
  let result := Perf.mk None None None None None in
  let '(output, rc) :=
    run_cmd ["journalctl"; "-u"; SERVICE_NAME; "-n200"; "--no-pager"; "-q"] 10 in
  let result :=
    if rc =? 0 then fst (scan (rev (Text.splitlines output)) result) else result in
  java_pid ← get_java_pid;
  match java_pid with
  | Some pid =>
      if Text.is_empty pid then Ok result
      else
        let '(output, rc) :=
          run_cmd ["ps"; "-p"; pid; "-o"; "%cpu,%mem,rss"; "--no-headers"] 10 in
        if (rc =? 0) && negb (Text.is_empty output)
        then read_ps (Text.split output) result
        else Ok result
  | None => Ok result
  end.

Definition get_online_player_count (conn : Conn F) : Z :=
  Z.of_nat (size (filter (fun kv => Players.online kv.2 = 1) (players conn))).

(** [now] is [datetime.now(timezone.utc).isoformat()]. *)
Definition save_performance (now : string) (conn : Conn F) (perf : Perf.t F) : Conn F :=
  let players_online := get_online_player_count conn in
  let id := performance_seq conn + 1 in
  let row := Performance.mk id now (Perf.tps perf) (Perf.cpu_percent perf)
               (Perf.ram_mb perf) (Perf.ram_percent perf) (Perf.view_radius perf)
               players_online in
  commit (set_performance (performance conn ++ [row]) id conn).

(** The row a join inserts, or what it makes of the row [old] in conflict. *)
Definition upsert_join (event : Event.t) (old : option Players.row) : Players.row :=
  match old with
  | None =>
      Players.mk (Event.name event) 1 (Some (Event.timestamp event)) None
        (Event.world event) 0
  | Some r =>
      Players.mk (Event.name event) 1 (Some (Event.timestamp event))
        (Players.last_logout r) (Event.world event)
        (Players.total_playtime_seconds r)
  end.

(** [UPDATE players SET online = 0, last_logout = ?] on one row. *)
Definition update_leave (event : Event.t) (r : Players.row) : Players.row :=
  Players.mk (Players.name r) 0 (Players.last_login r)
    (Some (Event.timestamp event)) (Players.world r)
    (Players.total_playtime_seconds r).

Definition log_entry (id : Z) (event : Event.t) : PlayerEvents.row :=
  PlayerEvents.mk id (Event.timestamp event) (Event.uuid event) (Event.name event)
    (Event.kind_text (Event.type event)) (Event.world event).

(** The body of the loop over the events. *)
Definition merge_event (conn : Conn F) (event : Event.t) : Conn F :=
  let conn :=
    match Event.type event with
    | Event.join =>
        set_players
          (<[Event.uuid event := upsert_join event (players conn !! Event.uuid event)]>
             (players conn)) conn
    | Event.leave =>
        set_players (alter (update_leave event) (Event.uuid event) (players conn)) conn
    end in
  let id := player_events_seq conn + 1 in
  set_player_events (player_events conn ++ [log_entry id event]) id conn.

Definition merge_events (events : list Event.t) (conn : Conn F) : Conn F :=
  foldl merge_event conn events.

(** [check_player_events] from the parsed events on. *)
Definition process_events (since_ts : string) (events : list Event.t)
    (conn : Conn F) : Conn F :=
  match events with
  | [] => conn
  | _ :: _ =>
      let conn := merge_events events conn in
      let latest_ts :=
        match last events with
        | Some e => Event.timestamp e
        | None => since_ts
        end in
      let conn := set_metadata (<["last_event_ts" := latest_ts]> (metadata conn)) conn in
      print ("[Worker] Processed " +:+ pretty (length events) +:+ " player events")
        (commit conn)
  end.

Definition check_player_events (conn : Conn F) : Conn F :=
  let since_ts := default "3 days ago" (metadata conn !! "last_event_ts") in
  let '(output, rc) :=
    run_cmd ["journalctl"; "-u"; SERVICE_NAME; "--no-pager"; "-o"; "short-iso";
             "--since"; since_ts] 30 in
  if negb (rc =? 0) then conn
  else process_events since_ts (parse_player_events output) conn.

(** [DELETE FROM t WHERE timestamp < cutoff], and its rowcount. *)
Definition keep_from {A} (ts : A -> string) (cutoff : string) (rows : list A) : list A :=
  filter (fun r => Text.lt (ts r) cutoff = false) rows.

Definition rowcount {A} (before after : list A) : Z :=
  Z.of_nat (length before - length after).

Definition cleanup_old_data (conn : Conn F) : Conn F :=
  let cutoff := sql_datetime_now ("-" +:+ pretty PERF_RETENTION_HOURS +:+ " hours") in
  let kept := keep_from Performance.timestamp cutoff (performance conn) in
  let deleted_perf := rowcount (performance conn) kept in
  let conn := set_performance kept (performance_seq conn) conn in
  let cutoff := sql_datetime_now "-7 days" in
  let kept := keep_from PlayerEvents.timestamp cutoff (player_events conn) in
  let deleted_events := rowcount (player_events conn) kept in
  let conn := set_player_events kept (player_events_seq conn) conn in
  let conn :=
    if (0 <? deleted_perf) || (0 <? deleted_events)
    then print ("[Worker] Cleanup: removed " +:+ pretty deleted_perf +:+
                " perf records, " +:+ pretty deleted_events +:+ " events")
           (commit conn)
    else conn in
  effect WalCheckpoint conn.

(** The body of the first loop of [initial_player_sync]: the dict entry of
    the event's player is created if it is missing, then updated. *)
Definition sync_event (players : list (string * Synced.t)) (event : Event.t)
    : list (string * Synced.t) :=
  let uuid := Event.uuid event in
  let players :=
    match Dict.get uuid players with
    | None =>
        Dict.set uuid (Synced.mk uuid (Event.name event) false None None None) players
    | Some _ => players
    end in
  match Event.type event with
  | Event.join =>
      Dict.alter
        (fun p => Synced.mk (Synced.uuid p) (Event.name event) true
                    (Some (Event.timestamp event)) (Synced.last_logout p)
                    (Event.world event))
        uuid players
  | Event.leave =>
      Dict.alter
        (fun p => Synced.mk (Synced.uuid p) (Synced.name p) false
                    (Synced.last_login p) (Some (Event.timestamp event))
                    (Synced.world p))
        uuid players
  end.

(** SQL's [COALESCE(x, y)]. *)
Definition coalesce {A} (x y : option A) : option A :=
  match x with Some a => Some a | None => y end.

(** The row the upsert of [initial_player_sync] inserts for [p], or what it
    makes of the row [old] in conflict. *)
Definition upsert_synced (p : Synced.t) (old : option Players.row) : Players.row :=
  match old with
  | None =>
      Players.mk (Synced.name p) (if Synced.online p then 1 else 0)
        (Synced.last_login p) (Synced.last_logout p) (Synced.world p) 0
  | Some r =>
      Players.mk (Synced.name p) (if Synced.online p then 1 else 0)
        (coalesce (Synced.last_login p) (Players.last_login r))
        (coalesce (Synced.last_logout p) (Players.last_logout r))
        (coalesce (Synced.world p) (Players.world r))
        (Players.total_playtime_seconds r)
  end.

(** The body of the second loop. *)
Definition save_synced (conn : Conn F) (p : Synced.t) : Conn F :=
  set_players
    (<[Synced.uuid p := upsert_synced p (players conn !! Synced.uuid p)]> (players conn))
    conn.

Definition initial_player_sync (conn : Conn F) : Conn F :=
  let conn := print "[Worker] Initial player sync from logs..." conn in
  let '(output, rc) :=
    run_cmd ["journalctl"; "-u"; SERVICE_NAME; "--no-pager"; "-o"; "short-iso";
             "--since"; "7 days ago"] 60 in
  if negb (rc =? 0) then print ("[Worker] Failed to get logs: " +:+ output) conn
  else
    let events := parse_player_events output in
    let players := foldl sync_event [] events in
    let conn := foldl save_synced conn (Dict.values players) in
    print ("[Worker] Synced " +:+ pretty (length players) +:+ " players") (commit conn).

End Host.

(** *** The main loop *)

Inductive Task : Type := Metrics | Ingestion | Cleanup.

(** What calling a task does to the world [W] it works on: it returns, or it
    raises an exception (its text [e]) and leaves the world as it was then. *)
Inductive Outcome (W : Type) : Type :=
| Returned (w : W)
| Raised (e : string) (w : W).
Arguments Returned {W} w.
Arguments Raised {W} e w.

(** The locals and globals of [main]; [called] lists the tasks the loop has
    called, oldest first, and [printed] the lines [main] and the signal
    handler have printed. *)
Record Loop (W : Type) : Type := mkLoop {
  running : bool;
  last_perf : Q;
  last_player : Q;
  last_cleanup : Q;
  world : W;
  called : list Task;
  printed : list string
}.
Arguments mkLoop {W}.
Arguments running {W}.
Arguments last_perf {W}.
Arguments last_player {W}.
Arguments last_cleanup {W}.
Arguments world {W}.
Arguments called {W}.
Arguments printed {W}.

Section Main.

Context {W : Type}.
(** The three tasks: [Metrics] is [collect_performance] followed by
    [save_performance], [Ingestion] is [check_player_events] and [Cleanup] is
    [cleanup_old_data]. *)
Variable task : Task -> W -> Outcome W.

Definition interval (t : Task) : Q :=
  match t with
  | Metrics => PERF_INTERVAL
  | Ingestion => PLAYER_INTERVAL
  | Cleanup => CLEANUP_INTERVAL
  end.

Definition last_run (t : Task) (st : Loop W) : Q :=
  match t with
  | Metrics => last_perf st
  | Ingestion => last_player st
  | Cleanup => last_cleanup st
  end.

Definition set_last_run (t : Task) (now : Q) (st : Loop W) : Loop W :=
  match t with
  | Metrics =>
      mkLoop (running st) now (last_player st) (last_cleanup st) (world st)
        (called st) (printed st)
  | Ingestion =>
      mkLoop (running st) (last_perf st) now (last_cleanup st) (world st)
        (called st) (printed st)
  | Cleanup =>
      mkLoop (running st) (last_perf st) (last_player st) now (world st)
        (called st) (printed st)
  end.

Definition enter (t : Task) (w : W) (st : Loop W) : Loop W :=
  mkLoop (running st) (last_perf st) (last_player st) (last_cleanup st) w
    (called st ++ [t]) (printed st).

Definition say (line : string) (st : Loop W) : Loop W :=
  mkLoop (running st) (last_perf st) (last_player st) (last_cleanup st)
    (world st) (called st) (printed st ++ [line]).

(** [now - last >= interval] *)
Definition due (t : Task) (now : Q) (st : Loop W) : bool :=
  Qle_bool (interval t) (now - last_run t st).

(** The state of the [try] block: still running, or left by an exception. *)
Inductive Try : Type :=
| Going (st : Loop W)
| Left (e : string) (st : Loop W).

Definition and_then (m : Try) (f : Loop W -> Try) : Try :=
  match m with
  | Going st => f st
  | Left e st => Left e st
  end.

(** One [if now - last >= INTERVAL: task(); last = now]. *)
Definition run_if_due (t : Task) (now : Q) (st : Loop W) : Try :=
  if due t now st then
    match task t (world st) with
    | Returned w => Going (set_last_run t now (enter t w st))
    | Raised e w => Left e (enter t w st)
    end
  else Going st.

Definition try_block (now : Q) (st : Loop W) : Try :=
  and_then (and_then (run_if_due Metrics now st) (run_if_due Ingestion now))
    (run_if_due Cleanup now).

(** The body of [while running], the [time.sleep(1)] apart. *)
Definition iteration (now : Q) (st : Loop W) : Loop W :=
  match try_block now st with
  | Going st' => st'
  | Left e st' => say ("[Worker] Error: " +:+ e) st'
  end.

(** [signal_handler] *)
Definition signal_handler (sig : Z) (st : Loop W) : Loop W :=
  let st := say ("[Worker] Received signal " +:+ pretty sig +:+ ", shutting down...") st in
  mkLoop false (last_perf st) (last_player st) (last_cleanup st) (world st)
    (called st) (printed st).

(** The loop over the readings of the clock; with each comes the signal, if
    any, that arrives before the loop tests [running] again. *)
Fixpoint main_loop (clock : list (Q * option Z)) (st : Loop W) : Loop W :=
  match clock with
  | [] => st
  | (now, sig) :: rest =>
      if running st then
        let st := iteration now st in
        main_loop rest (match sig with Some n => signal_handler n st | None => st end)
      else st
  end.

End Main.

End Worker.

(** * Vocabulary of the properties

    The functions and example data the statements below are written with. *)

Import Worker.

(** ** For: Merging events into [players] and [player_events] *)

(** What an event does to the row of its own player. *)
Definition step (e : Event.t) (o : option Players.row) : option Players.row :=
  match Event.type e with
  | Event.join => Some (upsert_join e o)
  | Event.leave => update_leave e <$> o
  end.

(** What an event does to the row of player [u]. *)
Definition touch (u : string) (o : option Players.row) (e : Event.t)
    : option Players.row :=
  if decide (Event.uuid e = u) then step e o else o.

(** The rows a batch appends to [player_events] when the last id handed out
    was [seq]. *)
Fixpoint log_entries (seq : Z) (B : list Event.t) : list PlayerEvents.row :=
  match B with
  | [] => []
  | e :: B' => log_entry (seq + 1) e :: log_entries (seq + 1) B'
  end.

(** An empty database, and the event of the specification's example line. *)
Definition fresh_db : Conn Q := mkConn ∅ [] 0 [] 0 ∅ [].

Definition alice_line : string :=
  "2024-01-01T10:00:00 ... Adding player 'Alice' to world 'Overworld' at location ... (abc-123)".

Definition alice_join : Event.t :=
  Event.mk "2024-01-01T10:00:00" "Alice" (Some "Overworld") "abc-123" Event.join.

Definition alice_leave : Event.t :=
  Event.mk "2024-01-01T11:30:00" "Alice" None "abc-123" Event.leave.


(** What a log row records of its event, the id apart. *)
Definition entry_content (r : PlayerEvents.row)
    : string * string * string * string * option string :=
  (PlayerEvents.timestamp r, PlayerEvents.uuid r, PlayerEvents.name r,
   PlayerEvents.event_type r, PlayerEvents.world r).

Definition event_content (e : Event.t)
    : string * string * string * string * option string :=
  (Event.timestamp e, Event.uuid e, Event.name e,
   Event.kind_text (Event.type e), Event.world e).

(** ** For: Merging a batch twice *)








(** ** For: The checkpoint of an ingestion tick *)

(** The stored checkpoint: the value of the metadata key last_event_ts. *)
Definition checkpoint {F} (conn : Conn F) : option string :=
  metadata conn !! "last_event_ts".

(** The journal query of a tick, as [check_player_events] builds it. *)
Definition journal_since {F} (conn : Conn F) : list string :=
  ["journalctl"; "-u"; SERVICE_NAME; "--no-pager"; "-o"; "short-iso"; "--since";
   default "3 days ago" (checkpoint conn)].




(** ** For: Reading the metrics from the journal *)

(** The tps a single line sets, if it matches the TPS pattern. *)
Definition tps_of (line : string) : option Z :=
  match Re.search tps_re line with
  | Some (g :: _) => Some (Text.int_of_digits g)
  | _ => None
  end.

(** The view radius a single line sets, if it matches either view-radius
    pattern. *)
Definition view_radius_of (line : string) : option Z :=
  match Re.search vr_re line with
  | Some (g :: _) => Some (Text.int_of_digits g)
  | _ => None
  end.

(** The first value [f] finds in [lines], read front to back. *)
Definition first_of {A} (f : string -> option A) (lines : list string) : option A :=
  head (omap f lines).

(** The most recent value [f] finds in a journal, whose lines come oldest
    first. *)
Definition newest {A} (f : string -> option A) (journal : list string) : option A :=
  first_of f (rev journal).

(** The dict [collect_performance] starts from. *)
Definition no_metrics {F} : Perf.t F := Perf.mk None None None None None.


(** ** For: The resource probe *)

(** The [ps] query for the process [pid]. *)
Definition ps_query (pid : string) : list string :=
  ["ps"; "-p"; pid; "-o"; "%cpu,%mem,rss"; "--no-headers"].



(** ** For: Pruning *)


Definition noon_cutoffs (modifier : string) : string :=
  if String.eqb modifier "-7 days" then "2024-01-03 12:00:00"
  else "2024-01-09 12:00:00".

(** A sample taken at 03:00 UTC on 2024-01-09, thirty-three hours before
    that pruning run. *)
Definition stale_db : Conn Q :=
  mkConn ∅
    [Performance.mk 1 "2024-01-09T03:00:00.120000+00:00" (Some 20) None None None
       (Some 12) 0] 1
    [] 0 ∅ [].

(** ** For: Exceptions in the main loop *)

(** Tasks over a world that lists the tasks that ran to their end; storing
    the sample fails, with SQLite's message, each time it is tried. *)
Definition locked_store (t : Task) (w : list Task) : Outcome (list Task) :=
  match t with
  | Metrics => Raised "database is locked" w
  | _ => Returned (w ++ [t])
  end.

(** The loop as [main] enters it: the three timers at 0. *)
Definition entering {W} (w : W) : Loop W := mkLoop true 0 0 0 w [] [].

(** The loop before its first iteration, over a world where no task has run. *)
Definition idle : Loop (list Task) := entering [].

Definition error_line (e : string) : string := "[Worker] Error: " +:+ e.

(** ** For: The startup backfill *)

(** The journal query of [initial_player_sync]. *)
Definition journal_week : list string :=
  ["journalctl"; "-u"; SERVICE_NAME; "--no-pager"; "-o"; "short-iso"; "--since";
   "7 days ago"].

(** The dict entry the backfill creates for the player of [e]. *)
Definition fresh_entry (e : Event.t) : Synced.t :=
  Synced.mk (Event.uuid e) (Event.name e) false None None None.

(** What an event does to the dict entry of its player. *)
Definition sync_apply (e : Event.t) (p : Synced.t) : Synced.t :=
  match Event.type e with
  | Event.join =>
      Synced.mk (Synced.uuid p) (Event.name e) true (Some (Event.timestamp e))
        (Synced.last_logout p) (Event.world e)
  | Event.leave =>
      Synced.mk (Synced.uuid p) (Synced.name p) false (Synced.last_login p)
        (Some (Event.timestamp e)) (Synced.world p)
  end.

(** What an event does to the dict entry of player [u]. *)
Definition sync_touch (u : string) (o : option Synced.t) (e : Event.t)
    : option Synced.t :=
  if decide (Event.uuid e = u) then Some (sync_apply e (default (fresh_entry e) o))
  else o.

(** The dict entry of one player, event by event. *)
Definition entry_step (o : option Synced.t) (e : Event.t) : option Synced.t :=
  Some (sync_apply e (default (fresh_entry e) o)).

(** The events of player [u], and among events the joins and the leaves. *)
Definition events_of (u : string) (events : list Event.t) : list Event.t :=
  filter (fun e => Event.uuid e = u) events.

#[global] Instance kind_eq_dec : EqDecision Event.kind.
Proof. solve_decision. Defined.

Definition joins (events : list Event.t) : list Event.t :=
  filter (fun e => Event.type e = Event.join) events.

Definition leaves (events : list Event.t) : list Event.t :=
  filter (fun e => Event.type e = Event.leave) events.

(** [online] as the players table stores it. *)
Definition online_flag (k : Event.kind) : Z :=
  match k with Event.join => 1 | Event.leave => 0 end.

(** A dict of the backfill is well formed: no key twice, and each entry
    carries its key as uuid. *)
Definition dict_wf (d : list (string * Synced.t)) : Prop :=
  NoDup d.*1 /\ Forall (fun kv => Synced.uuid kv.2 = kv.1) d.

(** A journal of one player who is seen leaving, and nothing else, within
    the week. *)
Definition bob_leaves_host (cmd : list string) (timeout : Z) : (string * Z) + string :=
  inl ("2024-01-01T11:45:00+0000 host hytale[812]: Removing player 'Bob' (def-456)", 0).

(** ** For: The state invariants *)

(** Every row of players is online with its last login and its world set,
    or offline with its last logout set. *)
Definition row_sound (r : Players.row) : Prop :=
  (Players.online r = 1 /\ is_Some (Players.last_login r) /\ is_Some (Players.world r)) \/
  (Players.online r = 0 /\ is_Some (Players.last_logout r)).

Definition presence_sound {F} (conn : Conn F) : Prop :=
  forall u r, players conn !! u = Some r -> row_sound r.

(** An event as the parser builds it: a join names its world, a leave has
    none. *)
Definition event_shaped (e : Event.t) : Prop :=
  match Event.type e with
  | Event.join => is_Some (Event.world e)
  | Event.leave => Event.world e = None
  end.

(** The ids of a table with an AUTOINCREMENT key: they grow in the order of
    the rows, and none exceeds the last id handed out. *)
Definition issued (ids : list Z) (seq : Z) : Prop :=
  StronglySorted Z.lt ids /\ Forall (fun i => i <= seq) ids.

Definition ids_sound {F} (conn : Conn F) : Prop :=
  issued (Performance.id <$> performance conn) (performance_seq conn) /\
  issued (PlayerEvents.id <$> player_events conn) (player_events_seq conn).

(** ** For: The performance sample *)

(** The journal query of [collect_performance]. *)
Definition journal_tail : list string :=
  ["journalctl"; "-u"; SERVICE_NAME; "-n200"; "--no-pager"; "-q"].

(** A host whose server runs as process 813 under the wrapper 812. *)
Definition running_host (cmd : list string) (timeout : Z) : (string * Z) + string :=
  match cmd with
  | "journalctl" :: _ => inr "Command timed out after 10 seconds"
  | "systemctl" :: _ => inl ("812 ", 0)
  | "pgrep" :: "-P" :: _ => inl ("813", 0)
  | "ps" :: _ => inl (" 12.5  3.1 2097152", 0)
  | _ => inl ("", 1)
  end.

(** Python's [float], [int] and [/] on the three tokens of that [ps] line,
    with rationals for floats. *)
Definition float_of_token (s : string) : option Q :=
  if String.eqb s "12.5" then Some (25 # 2)
  else if String.eqb s "3.1" then Some (31 # 10)
  else None.

Definition int_of_token (s : string) : option Z :=
  if String.eqb s "2097152" then Some 2097152 else None.

Definition exact_div (n d : Z) : option Q := Some (Qred (inject_Z n / inject_Z d)).

(** * Properties *)

Local Ltac read_ps_stops :=
  intros [= <-]; simpl; repeat split;
  first [ reflexivity | by left | right; eauto 10 ].

(** ** Merging events into [players] and [player_events] *)

Section Merge.

Context {F : Type}.
Implicit Types (conn : Conn F) (e : Event.t) (B : list Event.t) (u : string).

Lemma players_merge_event conn e :
  players (merge_event conn e) =
  match Event.type e with
  | Event.join =>
      <[Event.uuid e := upsert_join e (players conn !! Event.uuid e)]> (players conn)
  | Event.leave => alter (update_leave e) (Event.uuid e) (players conn)
  end.
Proof. unfold merge_event. destruct (Event.type e); reflexivity. Qed.

Lemma lookup_merge_event conn e u :
  players (merge_event conn e) !! u = touch u (players conn !! u) e.
Proof.
  rewrite players_merge_event. unfold touch, step.
  destruct (Event.type e); case_decide as Hu.
  - subst u. apply lookup_insert_eq.
  - by apply lookup_insert_ne.
  - subst u. apply lookup_alter_eq.
  - by apply lookup_alter_ne.
Qed.

Lemma lookup_merge_events B conn u :
  players (merge_events B conn) !! u = foldl (touch u) (players conn !! u) B.
Proof.
  unfold merge_events. revert conn.
  induction B as [|e B IH]; intros conn; simpl; [reflexivity|].
  by rewrite IH, lookup_merge_event.
Qed.

Lemma player_events_merge_event conn e :
  player_events (merge_event conn e) =
    player_events conn ++ [log_entry (player_events_seq conn + 1) e] /\
  player_events_seq (merge_event conn e) = player_events_seq conn + 1.
Proof. unfold merge_event. destruct (Event.type e); split; reflexivity. Qed.

Lemma player_events_merge_events B conn :
  player_events (merge_events B conn) =
    player_events conn ++ log_entries (player_events_seq conn) B /\
  player_events_seq (merge_events B conn) =
    player_events_seq conn + Z.of_nat (length B).
Proof.
  unfold merge_events. revert conn.
  induction B as [|e B IH]; intros conn; simpl.
  - split; [by rewrite app_nil_r | lia].
  - destruct (IH (merge_event conn e)) as [IH1 IH2].
    destruct (player_events_merge_event conn e) as [H1 H2].
    rewrite IH1, IH2, H1, H2. split; [by rewrite <- app_assoc | lia].
Qed.

Lemma merge_event_other_tables conn e :
  performance (merge_event conn e) = performance conn /\
  performance_seq (merge_event conn e) = performance_seq conn /\
  metadata (merge_event conn e) = metadata conn /\
  effects (merge_event conn e) = effects conn.
Proof. unfold merge_event. destruct (Event.type e); repeat split. Qed.

Lemma merge_events_other_tables B conn :
  performance (merge_events B conn) = performance conn /\
  performance_seq (merge_events B conn) = performance_seq conn /\
  metadata (merge_events B conn) = metadata conn /\
  effects (merge_events B conn) = effects conn.
Proof.
  unfold merge_events. revert conn.
  induction B as [|e B IH]; intros conn; simpl; [repeat split|].
  destruct (IH (merge_event conn e)) as (-> & -> & -> & ->).
  apply merge_event_other_tables.
Qed.

End Merge.

Lemma alice_line_parses : parse_line alice_line = Some alice_join.
Proof. vm_compute. reflexivity. Qed.

Section MergeProperties.

Context {F : Type}.
Implicit Types (conn : Conn F) (e : Event.t) (B : list Event.t) (u : string).

(** C4. Merging a join upserts the row keyed by the event's uuid: the row
    exists afterwards with the event's name, online = 1, last_login the
    event's timestamp and world the event's world, whatever the row held
    before; a row that did not exist starts with no last_logout and no
    playtime, a row that did keeps those two columns; no other key of the
    table is touched. *)
Theorem join_upserts_record conn e :
  Event.type e = Event.join ->
  exists r,
    players (merge_event conn e) !! Event.uuid e = Some r /\
    Players.name r = Event.name e /\
    Players.online r = 1 /\
    Players.last_login r = Some (Event.timestamp e) /\
    Players.world r = Event.world e /\
    (players conn !! Event.uuid e = None ->
       Players.last_logout r = None /\ Players.total_playtime_seconds r = 0) /\
    (forall old, players conn !! Event.uuid e = Some old ->
       Players.last_logout r = Players.last_logout old /\
       Players.total_playtime_seconds r = Players.total_playtime_seconds old) /\
    (forall u, u <> Event.uuid e ->
       players (merge_event conn e) !! u = players conn !! u).
Proof.
  intros Hjoin.
  exists (upsert_join e (players conn !! Event.uuid e)).
  split.
  { rewrite lookup_merge_event. unfold touch, step.
    rewrite decide_True by reflexivity. by rewrite Hjoin. }
  do 4 (split; [by destruct (players conn !! Event.uuid e)|]).
  split; [by intros ->|].
  split; [by intros old ->|].
  intros u Hu. rewrite lookup_merge_event. unfold touch.
  by rewrite decide_False.
Qed.


(** C9. A leave for a uuid that has a row changes only online and
    last_logout of that row: name, last_login, world and playtime stay (so a
    world that was set stays set); and no event of either kind changes the
    row of another uuid. *)
Theorem leave_keeps_other_columns conn e old :
  Event.type e = Event.leave ->
  players conn !! Event.uuid e = Some old ->
  (exists r, players (merge_event conn e) !! Event.uuid e = Some r /\
     Players.name r = Players.name old /\
     Players.last_login r = Players.last_login old /\
     Players.world r = Players.world old /\
     Players.total_playtime_seconds r = Players.total_playtime_seconds old /\
     (is_Some (Players.world old) -> is_Some (Players.world r))) /\
  (forall conn' e' u, u <> Event.uuid e' ->
     players (merge_event conn' e') !! u = players conn' !! u).
Proof.
  intros Hleave Hold. split.
  - exists (update_leave e old).
    rewrite lookup_merge_event. unfold touch, step.
    rewrite decide_True by reflexivity. rewrite Hleave, Hold.
    by repeat split.
  - intros conn' e' u Hu. rewrite lookup_merge_event. unfold touch.
    by rewrite decide_False.
Qed.

Lemma log_entries_content seq B :
  map entry_content (log_entries seq B) = map event_content B.
Proof.
  revert seq. induction B as [|e B IH]; intros seq; simpl; [reflexivity|].
  by rewrite IH.
Qed.

Lemma log_entries_length seq B : length (log_entries seq B) = length B.
Proof.
  revert seq. induction B as [|e B IH]; intros seq; simpl; [reflexivity|].
  by rewrite IH.
Qed.

(** C10. Merging a batch a second time appends its rows to [player_events]
    a second time, under fresh ids: after the duplicate merge the log holds
    the old rows followed by two copies of the batch's entries. *)
Theorem event_log_is_appended_twice B conn :
  let once := merge_events B conn in
  let twice := merge_events B once in
  let seq := player_events_seq conn in
  player_events twice =
    player_events conn ++ log_entries seq B
      ++ log_entries (seq + Z.of_nat (length B)) B /\
  map entry_content (player_events twice) =
    map entry_content (player_events conn)
      ++ map event_content B ++ map event_content B /\
  length (player_events twice) = (length (player_events once) + length B)%nat.
Proof.
  intros once twice seq. subst once twice seq.
  destruct (player_events_merge_events B conn) as [H1 H2].
  destruct (player_events_merge_events B (merge_events B conn)) as [H3 _].
  rewrite H3, H2, H1. split; [|split].
  - by rewrite <- app_assoc.
  - by rewrite !map_app, !log_entries_content, <- app_assoc.
  - by rewrite !length_app, !log_entries_length.
Qed.

End MergeProperties.

Lemma join_upserts_record_witness :
  Event.type alice_join = Event.join /\
  exists r,
    players (merge_event fresh_db alice_join) !! Event.uuid alice_join = Some r /\
    Players.name r = Event.name alice_join /\
    Players.online r = 1 /\
    Players.last_login r = Some (Event.timestamp alice_join) /\
    Players.world r = Event.world alice_join /\
    (players fresh_db !! Event.uuid alice_join = None ->
       Players.last_logout r = None /\ Players.total_playtime_seconds r = 0) /\
    (forall old, players fresh_db !! Event.uuid alice_join = Some old ->
       Players.last_logout r = Players.last_logout old /\
       Players.total_playtime_seconds r = Players.total_playtime_seconds old) /\
    (forall u, u <> Event.uuid alice_join ->
       players (merge_event fresh_db alice_join) !! u = players fresh_db !! u).
Proof.
  split; [reflexivity|].
  apply (join_upserts_record fresh_db alice_join). reflexivity.
Defined.

(** ** Merging a batch twice *)

Section Idempotence.

Context {F : Type}.
Implicit Types (conn : Conn F) (e : Event.t) (B : list Event.t) (u : string).
Implicit Types (r : Players.row) (g j : Players.row -> Players.row).

















End Idempotence.

Section MergeTwice.

Context {F : Type}.


End MergeTwice.




Lemma leave_keeps_other_columns_witness :
  Event.type alice_leave = Event.leave /\
  exists r,
    players (merge_event (merge_event fresh_db alice_join) alice_leave) !! "abc-123"
      = Some r /\
    Players.name r = "Alice" /\
    Players.last_login r = Some "2024-01-01T10:00:00" /\
    Players.world r = Some "Overworld".
Proof.
  split; [reflexivity|].
  destruct (leave_keeps_other_columns (merge_event fresh_db alice_join) alice_leave
              (upsert_join alice_join None) eq_refl eq_refl)
    as [(r & Hr & Hname & Hlogin & Hworld & _) _].
  exists r. split; [exact Hr|]. split; [exact Hname|]. split; [exact Hlogin|exact Hworld].
Defined.

(** ** The checkpoint of an ingestion tick *)


Section Checkpoint.

Context {F : Type}.
Implicit Types (conn : Conn F) (events : list Event.t).


Lemma check_player_events_run subprocess_run conn output rc :
  run_cmd subprocess_run (journal_since conn) 30 = (output, rc) ->
  check_player_events subprocess_run conn =
  if negb (rc =? 0) then conn
  else process_events (default "3 days ago" (checkpoint conn))
         (parse_player_events output) conn.
Proof.
  intros Hrun. unfold check_player_events.
  change (run_cmd subprocess_run _ 30)
    with (run_cmd subprocess_run (journal_since conn) 30).
  by rewrite Hrun.
Qed.


End Checkpoint.



(** ** Reading the metrics from the journal *)

Section Scan.

Context {F : Type}.
Implicit Types (result r : Perf.t F) (lines ls : list string).

Lemma scan_line_fields line r :
  Perf.tps (scan_line line r) = from_option Some (tps_of line) (Perf.tps r) /\
  Perf.view_radius (scan_line line r) =
    from_option Some (view_radius_of line) (Perf.view_radius r) /\
  Perf.cpu_percent (scan_line line r) = Perf.cpu_percent r /\
  Perf.ram_percent (scan_line line r) = Perf.ram_percent r /\
  Perf.ram_mb (scan_line line r) = Perf.ram_mb r.
Proof.
  unfold scan_line, tps_of, view_radius_of.
  destruct r as [t c m p v]; simpl.
  destruct t as [t|], v as [v|]; simpl;
    destruct (Re.search tps_re line) as [[|g1 ?]|];
    destruct (Re.search vr_re line) as [[|g2 ?]|]; simpl; repeat split.
Qed.

Lemma first_of_cons {A} (f : string -> option A) line ls :
  first_of f (line :: ls) = from_option Some (first_of f ls) (f line).
Proof. unfold first_of. simpl. by destruct (f line). Qed.

Lemma both_found_spec r :
  both_found r = true <-> is_Some (Perf.tps r) /\ is_Some (Perf.view_radius r).
Proof.
  unfold both_found. rewrite andb_true_iff, !bool_decide_eq_true. reflexivity.
Qed.

Lemma scan_fields ls r :
  Perf.tps (fst (scan ls r)) = from_option Some (first_of tps_of ls) (Perf.tps r) /\
  Perf.view_radius (fst (scan ls r)) =
    from_option Some (first_of view_radius_of ls) (Perf.view_radius r) /\
  Perf.cpu_percent (fst (scan ls r)) = Perf.cpu_percent r /\
  Perf.ram_percent (fst (scan ls r)) = Perf.ram_percent r /\
  Perf.ram_mb (fst (scan ls r)) = Perf.ram_mb r.
Proof.
  revert r. induction ls as [|line ls IH]; intros r.
  - simpl. by destruct (Perf.tps r), (Perf.view_radius r).
  - simpl. rewrite !first_of_cons.
    destruct (scan_line_fields line r) as (Ht & Hv & Hc & Hp & Hm).
    destruct (both_found (scan_line line r)) eqn:Hboth.
    + apply both_found_spec in Hboth as [[t Ht'] [v Hv']]. simpl.
      rewrite Hc, Hp, Hm, Ht', Hv'. rewrite Ht' in Ht. rewrite Hv' in Hv.
      repeat split.
      * destruct (Perf.tps r), (tps_of line); simpl in *; congruence.
      * destruct (Perf.view_radius r), (view_radius_of line); simpl in *; congruence.
    + specialize (IH (scan_line line r)).
      destruct (scan ls (scan_line line r)) as [r' n]. simpl in *.
      destruct IH as (-> & -> & -> & -> & ->). rewrite Ht, Hv, Hc, Hp, Hm.
      repeat split.
      * by destruct (Perf.tps r), (tps_of line).
      * by destruct (Perf.view_radius r), (view_radius_of line).
Qed.




End Scan.


(** ** The resource probe *)

Section Probe.

Context {F : Type}.
Variable py_float : string -> option F.
Variable py_int : string -> option Z.
Variable py_truediv : Z -> Z -> option F.
Variable subprocess_run : list string -> Z -> (string * Z) + string.

(** Whatever [ps] printed, a column of the result is the value parsed from
    its own token or what the dict held before; the [try] block stops at
    the first token that is missing or does not parse. *)
Lemma read_ps_parsed_or_kept (parts : list string) (r r' : Perf.t F) :
  read_ps py_float py_int py_truediv parts r = Ok r' ->
  (Perf.cpu_percent r' = Perf.cpu_percent r \/
   exists p x, parts !! 0%nat = Some p /\ py_float p = Some x /\
               Perf.cpu_percent r' = Some x) /\
  (Perf.ram_percent r' = Perf.ram_percent r \/
   exists p x, parts !! 1%nat = Some p /\ py_float p = Some x /\
               Perf.ram_percent r' = Some x) /\
  (Perf.ram_mb r' = Perf.ram_mb r \/
   exists p n x, parts !! 2%nat = Some p /\ py_int p = Some n /\
                 py_truediv n 1024 = Some x /\ Perf.ram_mb r' = Some x) /\
  Perf.tps r' = Perf.tps r /\ Perf.view_radius r' = Perf.view_radius r.
Proof.
  unfold read_ps.
  destruct (parts !! 0%nat) as [p0|] eqn:H0; [|read_ps_stops].
  destruct (py_float p0) as [cpu|] eqn:Hcpu; [|read_ps_stops].
  destruct (parts !! 1%nat) as [p1|] eqn:H1; [|read_ps_stops].
  destruct (py_float p1) as [mem|] eqn:Hmem; [|read_ps_stops].
  destruct (parts !! 2%nat) as [p2|] eqn:H2; [|read_ps_stops].
  destruct (py_int p2) as [rss|] eqn:Hrss; [|read_ps_stops].
  destruct (py_truediv rss 1024) as [mb|] eqn:Hmb; [read_ps_stops|done].
Qed.



End Probe.


(** ** Pruning *)

Section Cleanup.

Context {F : Type}.
Variable sql_datetime_now : string -> string.
Implicit Types conn : Conn F.


Lemma rowcount_zero {A} (ts : A -> string) cutoff (rows : list A) :
  rowcount rows (keep_from ts cutoff rows) = 0 <-> keep_from ts cutoff rows = rows.
Proof.
  unfold rowcount, keep_from. split.
  - intros Hzero. induction rows as [|r rows IH]; [reflexivity|].
    pose proof (length_filter (fun r => Text.lt (ts r) cutoff = false) rows) as Hle.
    rewrite filter_cons in *. case_decide.
    + f_equal. apply IH. simpl in Hzero. lia.
    + simpl in Hzero. lia.
  - intros ->. lia.
Qed.

(** The connection a pruning run leaves. *)
Lemma cleanup_old_data_result conn :
  let kept_perf :=
    keep_from Performance.timestamp (sql_datetime_now "-24 hours") (performance conn) in
  let kept_events :=
    keep_from PlayerEvents.timestamp (sql_datetime_now "-7 days") (player_events conn) in
  let deleted_perf := rowcount (performance conn) kept_perf in
  let deleted_events := rowcount (player_events conn) kept_events in
  cleanup_old_data sql_datetime_now conn =
  mkConn (players conn) kept_perf (performance_seq conn) kept_events
    (player_events_seq conn) (metadata conn)
    (effects conn ++
     (if (0 <? deleted_perf) || (0 <? deleted_events)
      then [Commit;
            Print ("[Worker] Cleanup: removed " +:+ pretty deleted_perf +:+
                   " perf records, " +:+ pretty deleted_events +:+ " events")]
      else []) ++ [WalCheckpoint]).
Proof.
  intros kept_perf kept_events deleted_perf deleted_events.
  unfold cleanup_old_data.
  change (sql_datetime_now ("-" +:+ pretty PERF_RETENTION_HOURS +:+ " hours"))
    with (sql_datetime_now "-24 hours").
  fold kept_perf. fold deleted_perf. simpl. fold kept_events. fold deleted_events.
  destruct ((0 <? deleted_perf) || (0 <? deleted_events));
    unfold print, commit, effect; simpl.
  - by rewrite <- !app_assoc.
  - reflexivity.
Qed.


(** Text that carries a 'T' where the cutoff carries its blank, after the
    same date, is never below the cutoff. *)
Lemma same_day_is_not_below (date rest rest' : string) :
  Text.lt (date +:+ "T" +:+ rest) (date +:+ " " +:+ rest') = false.
Proof.
  unfold Text.lt, String.ltb.
  induction date as [|c date IH]; [reflexivity|].
  simpl. unfold Ascii.compare. rewrite N.compare_refl. exact IH.
Qed.

End Cleanup.


(** The sample of [stale_db] is nine hours past the 24-hour horizon of the
    run, and the run keeps it: the isoformat text that [save_performance]
    stores is compared with SQLite's datetime text, and on the day of the
    cutoff the former is the greater at the eleventh character. *)
Lemma stale_sample_survives :
  performance (cleanup_old_data noon_cutoffs stale_db) = performance stale_db.
Proof. vm_compute. reflexivity. Qed.


(** ** Exceptions in the main loop *)

Section MainLoop.

Context {W : Type}.
Variable task : Task -> W -> Outcome W.
Implicit Types (st : Loop W) (now : Q).

Lemma run_if_due_running t now st :
  match run_if_due task t now st with
  | Going st' | Left _ st' => running st' = running st
  end.
Proof.
  unfold run_if_due. destruct (due t now st); [|reflexivity].
  by destruct (task t (world st)), t.
Qed.

Lemma try_block_running now st :
  match try_block task now st with
  | Going st' | Left _ st' => running st' = running st
  end.
Proof.
  unfold try_block, and_then.
  pose proof (run_if_due_running Metrics now st) as H1.
  destruct (run_if_due task Metrics now st) as [st1|e st1]; [|exact H1].
  pose proof (run_if_due_running Ingestion now st1) as H2.
  destruct (run_if_due task Ingestion now st1) as [st2|e st2]; [|congruence].
  pose proof (run_if_due_running Cleanup now st2) as H3.
  destruct (run_if_due task Cleanup now st2) as [st3|e st3]; congruence.
Qed.

Lemma run_if_due_raises t now st e w :
  due t now st = true -> task t (world st) = Raised e w ->
  run_if_due task t now st = Left e (enter t w st).
Proof. intros Hdue Hraise. unfold run_if_due. by rewrite Hdue, Hraise. Qed.

(** C3, as the code has it. One [try] encloses the three tasks. An
    exception a task raises is caught and printed and the loop goes on to
    its next iteration; the tasks before it in the block have run and had
    their timers set, its own timer is not set, and no task after it in the
    block is called in that iteration: a failure of the metric task skips
    ingestion and cleanup, a failure of ingestion skips cleanup. *)
Theorem exception_ends_the_iteration now st :
  running (iteration task now st) = running st /\
  (forall rest, running st = true ->
     main_loop task ((now, None) :: rest) st = main_loop task rest (iteration task now st)) /\
  (forall e st', try_block task now st = Left e st' ->
     iteration task now st = say (error_line e) st') /\
  (forall e w, due Metrics now st = true -> task Metrics (world st) = Raised e w ->
     iteration task now st = say (error_line e) (enter Metrics w st) /\
     called (iteration task now st) = called st ++ [Metrics]) /\
  (forall st1 e w, run_if_due task Metrics now st = Going st1 ->
     due Ingestion now st1 = true -> task Ingestion (world st1) = Raised e w ->
     iteration task now st = say (error_line e) (enter Ingestion w st1) /\
     called (iteration task now st) = called st1 ++ [Ingestion]) /\
  (forall st1 st2 e w, run_if_due task Metrics now st = Going st1 ->
     run_if_due task Ingestion now st1 = Going st2 ->
     due Cleanup now st2 = true -> task Cleanup (world st2) = Raised e w ->
     iteration task now st = say (error_line e) (enter Cleanup w st2)).
Proof.
  assert (running (iteration task now st) = running st) as Hrun.
  { unfold iteration. pose proof (try_block_running now st) as H.
    by destruct (try_block task now st). }
  split; [exact Hrun|].
  split; [intros rest Hon; simpl; by rewrite Hon|].
  split; [intros e st' Htry; unfold iteration; by rewrite Htry|].
  split; [|split].
  - intros e w Hdue Hraise. unfold iteration, try_block.
    by rewrite (run_if_due_raises Metrics now st e w Hdue Hraise).
  - intros st1 e w H1 Hdue Hraise. unfold iteration, try_block.
    rewrite H1. simpl.
    by rewrite (run_if_due_raises Ingestion now st1 e w Hdue Hraise).
  - intros st1 st2 e w H1 H2 Hdue Hraise. unfold iteration, try_block.
    rewrite H1. simpl. rewrite H2. simpl.
    by rewrite (run_if_due_raises Cleanup now st2 e w Hdue Hraise).
Qed.

End MainLoop.

(** C3 as stated fails: the store is locked, ingestion and cleanup are due,
    and the iteration calls the metric task alone; neither of the other two
    runs, in this iteration or in the next ones, as long as the metric task
    fails. *)
Lemma metric_failure_blocks_other_tasks :
  due Ingestion 1700000000 idle = true /\
  due Cleanup 1700000000 idle = true /\
  called (iteration locked_store 1700000000 idle) = [Metrics] /\
  world (iteration locked_store 1700000000 idle) = [] /\
  printed (iteration locked_store 1700000000 idle) =
    ["[Worker] Error: database is locked"] /\
  called (main_loop locked_store
            [(1700000000%Q, None); (1700000001%Q, None); (1700000002%Q, None)]
            idle) = [Metrics; Metrics; Metrics].
Proof. vm_compute. repeat split. Qed.

Lemma exception_ends_the_iteration_witness :
  due Metrics 1700000000 idle = true /\
  iteration locked_store 1700000000 idle =
    say (error_line "database is locked") (enter Metrics [] idle) /\
  called (iteration locked_store 1700000000 idle) = [Metrics].
Proof.
  split; [reflexivity|].
  destruct (exception_ends_the_iteration locked_store 1700000000 idle)
    as (_ & _ & _ & Hmetrics & _).
  exact (Hmetrics "database is locked" [] eq_refl eq_refl).
Defined.

(** ** Further properties: the process lookup cannot raise *)

Lemma lstrip_head (s : string) :
  Text.lstrip s = "" \/
  exists c r, Text.lstrip s = String c r /\ Text.isspace c = false.
Proof.
  induction s as [|c s IH]; [by left|]. simpl.
  destruct (Text.isspace c) eqn:Hc; [exact IH|]. right. by exists c, s.
Qed.

Lemma strip_head (s : string) :
  Text.strip s = "" \/
  exists c r, Text.strip s = String c r /\ Text.isspace c = false.
Proof.
  unfold Text.strip. destruct (lstrip_head s) as [->|(c & r & -> & Hc)]; [by left|].
  right. exists c, (Text.rstrip r). simpl. by rewrite Hc, andb_false_r.
Qed.

Lemma split_from_word (cur s : string) :
  Text.is_empty cur = false ->
  exists w ws, Text.split_from cur s = w :: ws /\ Text.is_empty w = false.
Proof.
  revert cur. induction s as [|c s IH]; intros cur Hcur; simpl.
  - rewrite Hcur. by eexists _, _.
  - destruct (Text.isspace c).
    + rewrite Hcur. by eexists _, _.
    + apply IH. by destruct cur.
Qed.

Lemma first_word_of_stripped (s : string) :
  Text.is_empty (Text.strip s) = false ->
  exists w, first_word (Text.strip s) = Ok w /\ Text.is_empty w = false.
Proof.
  intros Hne. destruct (strip_head s) as [Heq|(c & r & Heq & Hc)].
  - by rewrite Heq in Hne.
  - unfold first_word, Text.split. rewrite Heq. simpl. rewrite Hc.
    destruct (split_from_word (Text.snoc "" c) r eq_refl) as (w & ws & -> & Hw).
    by exists w.
Qed.

Section Lookup.

Variable subprocess_run : list string -> Z -> (string * Z) + string.

Lemma first_word_of_run_cmd cmd timeout :
  let '(output, rc) := run_cmd subprocess_run cmd timeout in
  (rc =? 0) && negb (Text.is_empty output) = true ->
  exists w, first_word output = Ok w /\ Text.is_empty w = false.
Proof.
  unfold run_cmd. destruct (subprocess_run cmd timeout) as [[stdout code]|e].
  - intros [_ Hne]%andb_true_iff. apply first_word_of_stripped.
    by apply negb_true_iff.
  - done.
Qed.

(** X1. [get_java_pid] always returns, and a pid it returns is not empty:
    [run_cmd] strips what the command printed, so an output that is not
    empty has a first word, and [output.split()[0]] raises no IndexError. *)
Theorem get_java_pid_returns :
  get_java_pid subprocess_run = Ok None \/
  exists pid, get_java_pid subprocess_run = Ok (Some pid) /\ Text.is_empty pid = false.
Proof.
  unfold get_java_pid.
  destruct (run_cmd subprocess_run _ 10) as [output rc].
  destruct (_ || _); [by left|].
  pose proof (first_word_of_run_cmd ["pgrep"; "-P"; Text.strip output; "java"] 10) as H1.
  destruct (run_cmd subprocess_run ["pgrep"; "-P"; Text.strip output; "java"] 10)
    as [out1 rc1].
  destruct ((rc1 =? 0) && negb (Text.is_empty out1)).
  { destruct (H1 eq_refl) as (w & -> & Hw). right. by exists w. }
  pose proof (first_word_of_run_cmd ["pgrep"; "-f"; "HytaleServer.jar"] 10) as H2.
  destruct (run_cmd subprocess_run ["pgrep"; "-f"; "HytaleServer.jar"] 10)
    as [out2 rc2].
  destruct ((rc2 =? 0) && negb (Text.is_empty out2)).
  { destruct (H2 eq_refl) as (w & -> & Hw). right. by exists w. }
  by left.
Qed.

End Lookup.

(** ** Further properties: merging in sub-batches *)

(** X2. Merging a batch at once and merging its consecutive parts one after
    the other, each from the state the previous left, give the same connection;
    for one player's join, leave and join the row ends online with the
    last join's timestamp, however the three events are grouped. *)
Theorem merge_in_sub_batches {F} (B1 B2 : list Event.t) (conn : Conn F) :
  merge_events (B1 ++ B2) conn = merge_events B2 (merge_events B1 conn) /\
  (forall t1 t2 t3 nm w u,
     let j1 := Event.mk t1 nm (Some w) u Event.join in
     let l2 := Event.mk t2 nm None u Event.leave in
     let j3 := Event.mk t3 nm (Some w) u Event.join in
     merge_events [j1; l2; j3] conn =
       merge_events [j3] (merge_events [l2] (merge_events [j1] conn)) /\
     merge_events [j1; l2; j3] conn = merge_events [l2; j3] (merge_events [j1] conn) /\
     exists r, players (merge_events [j1; l2; j3] conn) !! u = Some r /\
       Players.online r = 1 /\ Players.last_login r = Some t3 /\
       Players.last_logout r = Some t2).
Proof.
  split; [apply foldl_app|].
  intros t1 t2 t3 nm w u j1 l2 j3. split; [reflexivity|]. split; [reflexivity|].
  rewrite lookup_merge_events. unfold touch. simpl.
  rewrite !decide_True by reflexivity. by eexists.
Qed.

(** ** Further properties: the startup backfill *)

Section DictFacts.

Context {V : Type}.
Implicit Types (d : list (string * V)) (k : string).

Lemma dict_get_set d k k' (v : V) :
  Dict.get k' (Dict.set k v d) = if decide (k' = k) then Some v else Dict.get k' d.
Proof.
  induction d as [|[k0 v0] d IH]; simpl.
  - by repeat case_decide.
  - destruct (decide (k = k0)) as [->|Hk]; simpl.
    + by destruct (decide (k' = k0)).
    + destruct (decide (k' = k0)) as [->|Hk'].
      * by rewrite decide_False by done.
      * exact IH.
Qed.

Lemma dict_get_alter d k k' (f : V -> V) :
  Dict.get k' (Dict.alter f k d) =
  if decide (k' = k) then f <$> Dict.get k' d else Dict.get k' d.
Proof.
  induction d as [|[k0 v0] d IH]; simpl.
  - by case_decide.
  - destruct (decide (k = k0)) as [->|Hk]; simpl.
    + destruct (decide (k' = k0)) as [->|Hk']; [done|]. exact IH.
    + destruct (decide (k' = k0)) as [->|Hk'].
      * by rewrite decide_False by done.
      * exact IH.
Qed.

Lemma dict_get_None d k : Dict.get k d = None <-> k ∉ d.*1.
Proof.
  induction d as [|[k0 v0] d IH]; simpl.
  - split; [intros _; apply not_elem_of_nil | done].
  - rewrite not_elem_of_cons. destruct (decide (k = k0)) as [->|Hk].
    + split; [done | by intros [? _]].
    + rewrite IH. split; [by split | by intros [_ ?]].
Qed.

Lemma dict_keys_set d k (v : V) :
  Dict.get k d = None -> (Dict.set k v d).*1 = d.*1 ++ [k].
Proof.
  induction d as [|[k0 v0] d IH]; [done|].
  simpl. destruct (decide (k = k0)) as [->|Hk]; [done|].
  intros Hnone. rewrite !fmap_cons, IH by done. done.
Qed.

Lemma dict_keys_alter d k (f : V -> V) : (Dict.alter f k d).*1 = d.*1.
Proof.
  induction d as [|[k0 v0] d IH]; [done|].
  unfold Dict.alter in *. rewrite !fmap_cons, IH. simpl. by case_decide.
Qed.

End DictFacts.

Lemma dict_set_new {V} (d : list (string * V)) k (v : V) :
  Dict.get k d = None -> Dict.set k v d = d ++ [(k, v)].
Proof.
  induction d as [|[k0 v0] d IH]; [done|].
  simpl. destruct (decide (k = k0)) as [->|Hk]; [done|].
  intros Hnone. by rewrite IH.
Qed.

Section Backfill.

Context {F : Type}.
Implicit Types (conn : Conn F) (d : list (string * Synced.t)) (u : string).
Implicit Types (e : Event.t) (B : list Event.t).

Lemma sync_event_get d e u :
  Dict.get u (sync_event d e) = sync_touch u (Dict.get u d) e.
Proof.
  unfold sync_event, sync_touch, sync_apply, fresh_entry.
  destruct (Dict.get (Event.uuid e) d) as [p|] eqn:Hget;
    destruct (Event.type e); rewrite dict_get_alter, ?dict_get_set;
    destruct (decide (u = Event.uuid e)) as [->|Hu];
    rewrite ?decide_True by done; rewrite ?decide_False by done;
    try done; by rewrite Hget.
Qed.

Lemma sync_events_get B d u :
  Dict.get u (foldl sync_event d B) = foldl (sync_touch u) (Dict.get u d) B.
Proof.
  revert d. induction B as [|e B IH]; intros d; simpl; [done|].
  by rewrite IH, sync_event_get.
Qed.

Lemma dict_wf_alter d u (f : Synced.t -> Synced.t) :
  (forall p, Synced.uuid (f p) = Synced.uuid p) ->
  dict_wf d -> dict_wf (Dict.alter f u d).
Proof.
  intros Hf [Hnodup Hkeys]. split; [by rewrite dict_keys_alter|].
  unfold Dict.alter. apply Forall_fmap. eapply Forall_impl; [exact Hkeys|].
  intros [k p] Hk. simpl in *. case_decide; simpl; [by rewrite Hf | done].
Qed.

Lemma sync_event_wf d e : dict_wf d -> dict_wf (sync_event d e).
Proof.
  intros Hwf. unfold sync_event.
  assert (dict_wf
    match Dict.get (Event.uuid e) d with
    | Some _ => d
    | None =>
        Dict.set (Event.uuid e)
          (Synced.mk (Event.uuid e) (Event.name e) false None None None) d
    end) as Hwf'.
  { destruct (Dict.get (Event.uuid e) d) eqn:Hget; [done|].
    rewrite dict_set_new by done. destruct Hwf as [Hnodup Hkeys]. split.
    - rewrite fmap_app. apply NoDup_app. split; [done|]. split.
      + intros k Hk [->|[]%elem_of_nil]%elem_of_cons.
        by apply dict_get_None in Hget.
      + apply NoDup_singleton.
    - apply Forall_app. split; [done|]. by apply Forall_singleton. }
  destruct (Event.type e); by apply dict_wf_alter.
Qed.

Lemma sync_events_wf B d : dict_wf d -> dict_wf (foldl sync_event d B).
Proof.
  revert d. induction B as [|e B IH]; intros d Hwf; simpl; [done|].
  by apply IH, sync_event_wf.
Qed.

Lemma save_all_lookup d conn u :
  dict_wf d ->
  players (foldl save_synced conn (Dict.values d)) !! u =
  match Dict.get u d with
  | Some p => Some (upsert_synced p (players conn !! u))
  | None => players conn !! u
  end.
Proof.
  revert conn. induction d as [|[k p] d IH]; intros conn [Hnodup Hkeys]; [done|].
  rewrite fmap_cons in Hnodup. simpl in Hnodup.
  apply NoDup_cons in Hnodup as [Hk Hnodup].
  apply Forall_cons in Hkeys as [Hp Hkeys]. simpl in Hp.
  apply dict_get_None in Hk.
  unfold Dict.values in *. rewrite fmap_cons. simpl.
  rewrite IH by done.
  assert (players (save_synced conn p) !! u =
          if decide (u = k) then Some (upsert_synced p (players conn !! u))
          else players conn !! u) as ->.
  { unfold save_synced. simpl. rewrite Hp. destruct (decide (u = k)) as [->|Hu].
    - apply lookup_insert_eq.
    - by rewrite lookup_insert_ne. }
  destruct (decide (u = k)) as [->|Hu]; [by rewrite Hk | done].
Qed.

Lemma save_all_frame (ps : list Synced.t) conn :
  performance (foldl save_synced conn ps) = performance conn /\
  performance_seq (foldl save_synced conn ps) = performance_seq conn /\
  player_events (foldl save_synced conn ps) = player_events conn /\
  player_events_seq (foldl save_synced conn ps) = player_events_seq conn /\
  metadata (foldl save_synced conn ps) = metadata conn /\
  effects (foldl save_synced conn ps) = effects conn.
Proof.
  revert conn. induction ps as [|p ps IH]; intros conn; simpl; [done|].
  by destruct (IH (save_synced conn p)) as (-> & -> & -> & -> & -> & ->).
Qed.

End Backfill.

Section BackfillRun.

Context {F : Type}.
Variable subprocess_run : list string -> Z -> (string * Z) + string.
Implicit Types (conn : Conn F) (u : string) (e : Event.t) (B l : list Event.t).

Lemma sync_touch_events_of u o B :
  foldl (sync_touch u) o B = foldl entry_step o (events_of u B).
Proof.
  revert o. induction B as [|e B IH]; intros o; [done|].
  unfold events_of in *. rewrite filter_cons. simpl. unfold sync_touch at 2.
  case_decide; simpl; by rewrite IH.
Qed.

Lemma entry_fields l :
  match foldl entry_step None l with
  | None => l = []
  | Some p =>
      (exists e, last l = Some e /\
         Synced.online p = bool_decide (Event.type e = Event.join)) /\
      Synced.last_login p = Event.timestamp <$> last (joins l) /\
      Synced.last_logout p = Event.timestamp <$> last (leaves l) /\
      Synced.world p = last (joins l) ≫= Event.world /\
      (forall j, last (joins l) = Some j -> Synced.name p = Event.name j) /\
      (joins l = [] -> forall e0, head l = Some e0 -> Synced.name p = Event.name e0) /\
      (forall e0, head l = Some e0 -> Synced.uuid p = Event.uuid e0)
  end.
Proof.
  induction l as [|e l IH] using rev_ind; [done|].
  rewrite foldl_app. simpl. unfold entry_step at 1.
  unfold joins, leaves in *. rewrite !filter_app, !filter_cons, !filter_nil.
  split; [exists e; split; [apply last_snoc|]|].
  { unfold sync_apply. destruct (Event.type e); by simpl. }
  destruct (foldl entry_step None l) as [p|] eqn:Hfold.
  - destruct IH as ((e1 & Hlast & _) & Hlogin & Hlogout & Hworld & Hname & Hname0 & Hid).
    assert (exists e0, head l = Some e0 /\ head (l ++ [e]) = Some e0) as (e0 & Hhd & Hhd').
    { destruct l as [|e0 l]; [done|]. by exists e0. }
    rewrite Hhd'. unfold sync_apply.
    destruct (Event.type e) eqn:Hty; simpl.
    + rewrite ?decide_True by done; rewrite ?decide_False by done.
      rewrite !last_snoc, app_nil_r. simpl.
      repeat split; try done.
      * by intros j [= <-].
      * by intros []%app_nil.
      * intros e' [= <-]. by apply Hid.
    + rewrite ?decide_True by done; rewrite ?decide_False by done.
      rewrite !last_snoc, app_nil_r. simpl.
      repeat split; try done.
      * intros Hnil e' [= <-]. by apply Hname0.
      * intros e' [= <-]. by apply Hid.
  - subst l. simpl. unfold sync_apply, fresh_entry.
    destruct (Event.type e) eqn:Hty; simpl.
    + rewrite ?decide_True by done; rewrite ?decide_False by done. simpl.
      repeat split; try done. by intros j [= <-]. by intros e' [= <-].
    + rewrite ?decide_True by done; rewrite ?decide_False by done. simpl.
      repeat split; try done. by intros _ e' [= <-]. by intros e' [= <-].
Qed.

Lemma initial_player_sync_run conn output rc :
  run_cmd subprocess_run journal_week 60 = (output, rc) ->
  initial_player_sync subprocess_run conn =
  let conn := print "[Worker] Initial player sync from logs..." conn in
  if negb (rc =? 0) then print ("[Worker] Failed to get logs: " +:+ output) conn
  else
    let players := foldl sync_event [] (parse_player_events output) in
    print ("[Worker] Synced " +:+ pretty (length players) +:+ " players")
      (commit (foldl save_synced conn (Dict.values players))).
Proof.
  intros Hrun. unfold initial_player_sync.
  change (run_cmd subprocess_run _ 60) with (run_cmd subprocess_run journal_week 60).
  by rewrite Hrun.
Qed.

Lemma dict_wf_nil : dict_wf [].
Proof. split; [apply NoDup_nil_2 | apply Forall_nil_2]. Qed.

Lemma initial_player_sync_lookup conn output u :
  run_cmd subprocess_run journal_week 60 = (output, 0) ->
  players (initial_player_sync subprocess_run conn) !! u =
  match foldl entry_step None (events_of u (parse_player_events output)) with
  | Some p => Some (upsert_synced p (players conn !! u))
  | None => players conn !! u
  end.
Proof.
  intros Hrun. rewrite (initial_player_sync_run _ _ _ Hrun). simpl.
  rewrite save_all_lookup by apply sync_events_wf, dict_wf_nil.
  by rewrite sync_events_get, sync_touch_events_of.
Qed.

End BackfillRun.

Section BackfillProperties.

Context {F : Type}.
Variable subprocess_run : list string -> Z -> (string * Z) + string.
Implicit Types (conn : Conn F) (u : string) (e : Event.t).

Lemma upsert_synced_twice (p : Synced.t) (o : option Players.row) :
  upsert_synced p (Some (upsert_synced p o)) = upsert_synced p o.
Proof.
  destruct o as [r|]; unfold upsert_synced; simpl; f_equal;
    by destruct (Synced.last_login p), (Synced.last_logout p), (Synced.world p).
Qed.

(** X3. The rows the backfill leaves, player by player, when the journal
    query succeeds. A player without an event in the journal keeps the row
    it has, or none. A player with events has a row: online says whether the
    last of them is a join; last_login and world are those of the last join
    and last_logout that of the last leave, and where the journal has no
    such event the column keeps what the row held (nothing for a new row);
    the name is that of the last join, or of the first event when the
    player is only seen leaving; the playtime of an old row is kept. *)
Theorem backfill_rows conn output u :
  run_cmd subprocess_run journal_week 60 = (output, 0) ->
  let seen := events_of u (parse_player_events output) in
  let old := players conn !! u in
  let conn' := initial_player_sync subprocess_run conn in
  (seen = [] -> players conn' !! u = old) /\
  (forall e, last seen = Some e ->
     exists r, players conn' !! u = Some r /\
       Players.online r = online_flag (Event.type e) /\
       Players.last_login r =
         coalesce (Event.timestamp <$> last (joins seen)) (old ≫= Players.last_login) /\
       Players.last_logout r =
         coalesce (Event.timestamp <$> last (leaves seen)) (old ≫= Players.last_logout) /\
       Players.world r =
         coalesce (last (joins seen) ≫= Event.world) (old ≫= Players.world) /\
       Players.total_playtime_seconds r =
         default 0 (Players.total_playtime_seconds <$> old) /\
       (forall j, last (joins seen) = Some j -> Players.name r = Event.name j) /\
       (joins seen = [] -> forall e0, head seen = Some e0 ->
          Players.name r = Event.name e0)).
Proof.
  intros Hrun seen old conn'. subst conn'.
  rewrite (initial_player_sync_lookup _ _ _ _ Hrun). fold seen. fold old.
  pose proof (entry_fields seen) as Hfields.
  destruct (foldl entry_step None seen) as [p|].
  - destruct Hfields as ((e1 & Hlast & Hon) & Hlogin & Hlogout & Hworld & Hname & Hname0 & _).
    split; [intros Hnil; by rewrite Hnil in Hlast|].
    intros e He. rewrite Hlast in He. injection He as <-.
    eexists. split; [reflexivity|].
    unfold upsert_synced. rewrite <- Hlogin, <- Hlogout, <- Hworld.
    destruct old as [r|]; simpl; rewrite Hon;
      (split; [by destruct (Event.type e1)|]);
      repeat split; try done;
      by destruct (Synced.last_login p), (Synced.last_logout p), (Synced.world p).
  - subst seen. rewrite Hfields. split; [done|]. by intros e [=].
Qed.

(** X4. Running the backfill a second time on the same journal leaves the
    players table as the first run left it, whatever the journal holds and
    whether the query succeeds or not. *)
Theorem backfill_twice_same_players conn :
  players (initial_player_sync subprocess_run (initial_player_sync subprocess_run conn)) =
  players (initial_player_sync subprocess_run conn).
Proof.
  destruct (run_cmd subprocess_run journal_week 60) as [output rc] eqn:Hrun.
  destruct (decide (rc = 0)) as [->|Hrc].
  - apply map_eq. intros u.
    rewrite (initial_player_sync_lookup _ (initial_player_sync subprocess_run conn) _ _ Hrun).
    rewrite (initial_player_sync_lookup _ conn _ _ Hrun).
    destruct (foldl entry_step None _) as [p|]; [|done].
    by rewrite upsert_synced_twice.
  - rewrite !(initial_player_sync_run _ _ _ _ Hrun). simpl.
    apply Z.eqb_neq in Hrc. by rewrite Hrc.
Qed.

Lemma initial_player_sync_frame conn :
  let conn' := initial_player_sync subprocess_run conn in
  player_events conn' = player_events conn /\
  player_events_seq conn' = player_events_seq conn /\
  metadata conn' = metadata conn /\
  performance conn' = performance conn /\
  performance_seq conn' = performance_seq conn /\
  (snd (run_cmd subprocess_run journal_week 60) <> 0 -> players conn' = players conn).
Proof.
  intros conn'. subst conn'.
  destruct (run_cmd subprocess_run journal_week 60) as [output rc] eqn:Hrun.
  rewrite (initial_player_sync_run _ _ _ _ Hrun). simpl.
  destruct (decide (rc = 0)) as [->|Hrc].
  - simpl.
    destruct (save_all_frame
                (Dict.values (foldl sync_event [] (parse_player_events output)))
                (print "[Worker] Initial player sync from logs..." conn))
      as (-> & -> & -> & -> & -> & _).
    by repeat split.
  - apply Z.eqb_neq in Hrc. rewrite Hrc. simpl. by repeat split.
Qed.

(** X5. The backfill writes the players table and nothing else: it appends
    no row to player_events, stores no checkpoint in metadata and leaves
    performance alone; it removes no row of players; and when its journal
    query fails it leaves the players table too as it was. *)
Theorem backfill_writes_players_only conn :
  let conn' := initial_player_sync subprocess_run conn in
  player_events conn' = player_events conn /\
  player_events_seq conn' = player_events_seq conn /\
  metadata conn' = metadata conn /\
  performance conn' = performance conn /\
  performance_seq conn' = performance_seq conn /\
  (forall u, is_Some (players conn !! u) -> is_Some (players conn' !! u)) /\
  (snd (run_cmd subprocess_run journal_week 60) <> 0 -> players conn' = players conn).
Proof.
  intros conn'.
  destruct (initial_player_sync_frame conn) as (He & Hes & Hm & Hp & Hps & Hfail).
  fold conn' in He, Hes, Hm, Hp, Hps, Hfail.
  split; [exact He|]. split; [exact Hes|]. split; [exact Hm|].
  split; [exact Hp|]. split; [exact Hps|]. split; [|exact Hfail].
  intros u Hu. subst conn'.
  destruct (run_cmd subprocess_run journal_week 60) as [output rc] eqn:Hrun.
  destruct (decide (rc = 0)) as [->|Hrc].
  - rewrite (initial_player_sync_lookup _ _ _ _ Hrun).
    by destruct (foldl entry_step None _).
  - by rewrite (Hfail Hrc).
Qed.

End BackfillProperties.

Lemma backfill_rows_witness :
  exists r,
    players (initial_player_sync bob_leaves_host fresh_db) !! "def-456" = Some r /\
    Players.online r = 0 /\
    Players.last_login r = None /\
    Players.last_logout r = Some "2024-01-01T11:45:00+0000" /\
    Players.name r = "Bob".
Proof.
  destruct (backfill_rows bob_leaves_host fresh_db
              "2024-01-01T11:45:00+0000 host hytale[812]: Removing player 'Bob' (def-456)"
              "def-456" eq_refl) as [_ Hrow].
  destruct (Hrow (Event.mk "2024-01-01T11:45:00+0000" "Bob" None "def-456" Event.leave))
    as (r & Hr & Hon & Hlogin & Hlogout & _ & _ & _ & Hname).
  { vm_compute. reflexivity. }
  exists r. split; [exact Hr|]. split; [exact Hon|]. split; [exact Hlogin|].
  split; [exact Hlogout|].
  apply (Hname eq_refl (Event.mk "2024-01-01T11:45:00+0000" "Bob" None "def-456" Event.leave)).
  vm_compute. reflexivity.
Defined.

(** ** Further properties: the state invariants *)

Section Presence.

Context {F : Type}.
Implicit Types (conn : Conn F) (u : string) (e : Event.t) (B : list Event.t).

Lemma parse_line_shaped line e : parse_line line = Some e -> event_shaped e.
Proof.
  unfold parse_line, event_shaped.
  repeat case_match; intros; simplify_eq; simpl; by eauto.
Qed.

Lemma parse_player_events_shaped output :
  Forall event_shaped (parse_player_events output).
Proof.
  unfold parse_player_events. apply Forall_forall. intros e He.
  apply list_elem_of_omap in He as (line & _ & Hline).
  by eapply parse_line_shaped.
Qed.

Lemma merge_event_sound conn e :
  event_shaped e -> presence_sound conn -> presence_sound (merge_event conn e).
Proof.
  intros Hshape Hsound u r. rewrite lookup_merge_event. unfold touch, step.
  case_decide as Hu; [|apply Hsound].
  unfold event_shaped in Hshape. revert Hshape.
  destruct (Event.type e); intros Hshape.
  - intros [= <-]. left. destruct (players conn !! u); simpl; repeat split; eauto.
  - destruct (players conn !! u) as [old|]; [|done].
    intros [= <-]. right. split; simpl; eauto.
Qed.

Lemma merge_events_sound B conn :
  Forall event_shaped B -> presence_sound conn -> presence_sound (merge_events B conn).
Proof.
  unfold merge_events. revert conn.
  induction B as [|e B IH]; intros conn HB Hsound; [done|].
  apply Forall_cons in HB as [He HB]. simpl. by apply IH, merge_event_sound.
Qed.

Lemma entries_sound l p :
  Forall event_shaped l -> foldl entry_step None l = Some p ->
  (Synced.online p = true /\ is_Some (Synced.last_login p) /\ is_Some (Synced.world p)) \/
  (Synced.online p = false /\ is_Some (Synced.last_logout p)).
Proof.
  revert p. induction l as [|e l IH] using rev_ind; [done|].
  intros p [_ He]%Forall_app. apply Forall_inv in He. rewrite foldl_app. simpl.
  unfold entry_step at 1. intros [= <-].
  unfold sync_apply, event_shaped in *. revert He.
  destruct (Event.type e); simpl; intros He.
  - left. repeat split; eauto.
  - right. split; eauto.
Qed.

End Presence.

Section Invariants.

Context {F : Type}.
Variable subprocess_run : list string -> Z -> (string * Z) + string.
Variable sql_datetime_now : string -> string.
Implicit Types (conn : Conn F) (u : string) (e : Event.t) (B : list Event.t).

Lemma players_process_events since B conn :
  players (process_events since B conn) = players (merge_events B conn).
Proof. by destruct B. Qed.

Lemma players_check_player_events conn :
  players (check_player_events subprocess_run conn) = players conn \/
  exists output,
    players (check_player_events subprocess_run conn) =
    players (merge_events (parse_player_events output) conn).
Proof.
  destruct (run_cmd subprocess_run (journal_since conn) 30) as [output rc] eqn:Hrun.
  rewrite (check_player_events_run _ _ _ _ Hrun).
  destruct (negb (rc =? 0)); [by left|].
  right. exists output. apply players_process_events.
Qed.

Lemma upsert_synced_sound l p o :
  Forall event_shaped l -> foldl entry_step None l = Some p ->
  row_sound (upsert_synced p o).
Proof.
  intros Hl Hp. unfold row_sound.
  destruct (entries_sound l p Hl Hp) as [(Hon & [x Hx] & [w Hw])|(Hoff & [x Hx])];
    [left|right]; destruct o; simpl; rewrite ?Hon, ?Hoff, ?Hx, ?Hw; eauto.
Qed.

(** X6. Every operation of the worker keeps the players table sound: each
    row is online with its last login and world set, or offline with its
    last logout set. This holds after an ingestion tick and after the
    backfill for every journal, and after a sample or a pruning run, if it
    held before; it holds of the empty table. *)
Theorem presence_is_kept conn (now : string) (perf : Perf.t F) :
  presence_sound conn ->
  presence_sound (check_player_events subprocess_run conn) /\
  presence_sound (initial_player_sync subprocess_run conn) /\
  presence_sound (save_performance now conn perf) /\
  presence_sound (cleanup_old_data sql_datetime_now conn).
Proof.
  intros Hsound. split; [|split; [|split]].
  - intros u r.
    destruct (players_check_player_events conn) as [->|[output ->]]; [apply Hsound|].
    apply merge_events_sound; [apply parse_player_events_shaped | exact Hsound].
  - intros u r.
    destruct (run_cmd subprocess_run journal_week 60) as [output rc] eqn:Hrun.
    destruct (decide (rc = 0)) as [->|Hrc].
    + rewrite (initial_player_sync_lookup _ _ _ _ Hrun).
      destruct (foldl entry_step None _) as [p|] eqn:Hp; [|apply Hsound].
      intros [= <-]. eapply upsert_synced_sound; [|exact Hp].
      unfold events_of. apply Forall_forall. intros e [_ He]%list_elem_of_filter.
      by apply (proj1 (Forall_forall _ _) (parse_player_events_shaped output)).
    + rewrite (initial_player_sync_run _ _ _ _ Hrun). simpl.
      apply Z.eqb_neq in Hrc. rewrite Hrc. apply Hsound.
  - exact Hsound.
  - intros u r. rewrite (cleanup_old_data_result sql_datetime_now conn). apply Hsound.
Qed.

End Invariants.

Lemma presence_sound_empty {F} (conn : Conn F) : players conn = ∅ -> presence_sound conn.
Proof. intros Hempty u r. by rewrite Hempty, lookup_empty. Qed.

Lemma presence_is_kept_witness :
  presence_sound fresh_db /\
  (exists r,
     players (check_player_events (fun _ _ => inl (alice_line, 0)) fresh_db) !! "abc-123"
       = Some r /\ row_sound r) /\
  (exists r,
     players (initial_player_sync bob_leaves_host fresh_db) !! "def-456" = Some r /\
     row_sound r).
Proof.
  assert (presence_sound fresh_db) as Hfresh by (apply presence_sound_empty; reflexivity).
  split; [exact Hfresh|].
  destruct (presence_is_kept (fun _ _ => inl (alice_line, 0)) (fun m => m) fresh_db
              "" no_metrics Hfresh) as (Htick & _).
  destruct (presence_is_kept bob_leaves_host (fun m => m) fresh_db
              "" no_metrics Hfresh) as (_ & Hsync & _).
  split.
  - eexists. split; [vm_compute; reflexivity|].
    apply (Htick "abc-123"). vm_compute. reflexivity.
  - eexists. split; [vm_compute; reflexivity|].
    apply (Hsync "def-456"). vm_compute. reflexivity.
Defined.

Section Ids.

Context {F : Type}.
Variable subprocess_run : list string -> Z -> (string * Z) + string.
Variable sql_datetime_now : string -> string.
Implicit Types (conn : Conn F) (e : Event.t) (B : list Event.t).

Lemma issued_snoc ids seq : issued ids seq -> issued (ids ++ [seq + 1]) (seq + 1).
Proof.
  intros [Hsorted Hbelow]. split.
  - apply StronglySorted_app. split; [|split; [done|]].
    + intros i j Hi ->%list_elem_of_singleton.
      apply (proj1 (Forall_forall _ _) Hbelow) in Hi. lia.
    + repeat constructor.
  - apply Forall_app. split; [|apply Forall_singleton; lia].
    eapply Forall_impl; [exact Hbelow|]. simpl. lia.
Qed.

Lemma issued_filter {A} (id : A -> Z) (P : A -> Prop) `{!forall x, Decision (P x)}
    (rows : list A) seq :
  issued (id <$> rows) seq -> issued (id <$> filter P rows) seq.
Proof.
  induction rows as [|r rows IH]; [done|].
  rewrite fmap_cons. intros [Hsorted Hbelow].
  apply StronglySorted_cons in Hsorted as [Hr Hsorted].
  apply Forall_cons in Hbelow as [Hr' Hbelow].
  specialize (IH (conj Hsorted Hbelow)). destruct IH as [IH1 IH2].
  rewrite filter_cons. case_decide; [|by split].
  rewrite fmap_cons. split.
  - apply StronglySorted_cons. split; [|done].
    apply Forall_forall. intros i (x & -> & [_ Hx]%list_elem_of_filter)%list_elem_of_fmap.
    apply (proj1 (Forall_forall _ _) Hr). by apply list_elem_of_fmap_2.
  - by apply Forall_cons.
Qed.

Lemma issued_NoDup ids seq : issued ids seq -> NoDup ids.
Proof.
  intros [Hsorted _]. induction ids as [|i ids IH]; [apply NoDup_nil_2|].
  apply StronglySorted_cons in Hsorted as [Hi Hsorted].
  apply NoDup_cons. split; [|by apply IH].
  intros Hin. apply (proj1 (Forall_forall _ _) Hi) in Hin. lia.
Qed.

Lemma merge_event_ids conn e : ids_sound conn -> ids_sound (merge_event conn e).
Proof.
  intros [Hperf Hev]. unfold ids_sound.
  destruct (merge_event_other_tables conn e) as (-> & -> & _).
  destruct (player_events_merge_event conn e) as [-> ->].
  split; [done|]. rewrite fmap_app. by apply issued_snoc.
Qed.

Lemma merge_events_ids B conn : ids_sound conn -> ids_sound (merge_events B conn).
Proof.
  unfold merge_events. revert conn.
  induction B as [|e B IH]; intros conn Hsound; [done|].
  simpl. by apply IH, merge_event_ids.
Qed.

Lemma process_events_tables since B conn :
  performance (process_events since B conn) = performance conn /\
  performance_seq (process_events since B conn) = performance_seq conn /\
  player_events (process_events since B conn) = player_events (merge_events B conn) /\
  player_events_seq (process_events since B conn) = player_events_seq (merge_events B conn).
Proof.
  destruct B as [|e B]; [done|].
  destruct (merge_events_other_tables (e :: B) conn) as (Hp & Hps & _).
  split; [exact Hp|]. split; [exact Hps|]. split; reflexivity.
Qed.

(** X7. Every operation of the worker keeps the AUTOINCREMENT ids of
    performance and player_events sound: along each table the ids grow
    strictly, so no id occurs twice, and none exceeds the last id handed
    out, which no operation lowers; a row inserted after a pruning run
    therefore never takes the id of a deleted row. *)
Theorem ids_are_kept conn (now : string) (perf : Perf.t F) :
  ids_sound conn ->
  let after_sample := save_performance now conn perf in
  let after_tick := check_player_events subprocess_run conn in
  let after_pruning := cleanup_old_data sql_datetime_now conn in
  let after_backfill := initial_player_sync subprocess_run conn in
  ids_sound after_sample /\ ids_sound after_tick /\
  ids_sound after_pruning /\ ids_sound after_backfill /\
  performance_seq after_pruning = performance_seq conn /\
  player_events_seq after_pruning = player_events_seq conn /\
  performance_seq conn < performance_seq after_sample /\
  player_events_seq conn <= player_events_seq after_tick /\
  NoDup (Performance.id <$> performance conn) /\
  NoDup (PlayerEvents.id <$> player_events conn).
Proof.
  intros Hsound after_sample after_tick after_pruning after_backfill.
  assert (ids_sound after_tick /\
          player_events_seq conn <= player_events_seq after_tick) as [Htick Hseq].
  { subst after_tick.
    destruct (run_cmd subprocess_run (journal_since conn) 30) as [output rc] eqn:Hrun.
    rewrite (check_player_events_run _ _ _ _ Hrun).
    destruct (negb (rc =? 0)); [split; [done|lia]|].
    destruct (process_events_tables (default "3 days ago" (checkpoint conn))
                (parse_player_events output) conn) as (Hp & Hps & He & Hes).
    pose proof (merge_events_ids (parse_player_events output) conn Hsound) as [H1 H2].
    destruct (merge_events_other_tables (parse_player_events output) conn)
      as (Hp' & Hps' & _).
    destruct (player_events_merge_events (parse_player_events output) conn) as [_ Hn].
    unfold ids_sound. rewrite Hp, Hps, He, Hes. rewrite Hp', Hps' in H1.
    split; [by split | lia]. }
  destruct Hsound as [Hperf Hev].
  split; [|split; [exact Htick|split; [|split]]].
  - subst after_sample. unfold save_performance, ids_sound. simpl.
    split; [|done]. rewrite fmap_app. by apply issued_snoc.
  - subst after_pruning. rewrite (cleanup_old_data_result sql_datetime_now conn).
    unfold ids_sound. simpl. unfold keep_from. split; by apply issued_filter.
  - subst after_backfill. unfold ids_sound.
    destruct (initial_player_sync_frame subprocess_run conn) as (-> & -> & _ & -> & -> & _).
    by split.
  - subst after_pruning. rewrite (cleanup_old_data_result sql_datetime_now conn).
    simpl. repeat split; try done.
    + subst after_sample. unfold save_performance. simpl. lia.
    + by eapply issued_NoDup.
    + by eapply issued_NoDup.
Qed.

End Ids.

Lemma ids_sound_empty {F} (conn : Conn F) :
  performance conn = [] -> player_events conn = [] ->
  0 <= performance_seq conn -> 0 <= player_events_seq conn -> ids_sound conn.
Proof.
  intros Hp He _ _. unfold ids_sound, issued. rewrite Hp, He.
  repeat split; constructor.
Qed.

Lemma ids_are_kept_witness :
  ids_sound (check_player_events (fun _ _ => inl (alice_line, 0)) fresh_db) /\
  ids_sound (save_performance "2024-01-10T11:59:55.120000+00:00" fresh_db no_metrics) /\
  performance_seq fresh_db <
    performance_seq (save_performance "2024-01-10T11:59:55.120000+00:00" fresh_db no_metrics).
Proof.
  destruct (ids_are_kept (fun _ _ => inl (alice_line, 0)) (fun m => m) fresh_db
              "2024-01-10T11:59:55.120000+00:00" no_metrics
              (ids_sound_empty fresh_db eq_refl eq_refl ltac:(reflexivity) ltac:(reflexivity)))
    as (Hsample & Htick & _ & _ & _ & _ & Hseq & _).
  split; [exact Htick|]. split; [exact Hsample | exact Hseq].
Defined.

(** ** Further properties: the performance sample *)

Section Collect.

Context {F : Type}.
Variable py_float : string -> option F.
Variable py_int : string -> option Z.
Variable py_truediv : Z -> Z -> option F.
Variable subprocess_run : list string -> Z -> (string * Z) + string.

Lemma read_ps_keeps_journal_fields parts (r r' : Perf.t F) :
  read_ps py_float py_int py_truediv parts r = Ok r' ->
  Perf.tps r' = Perf.tps r /\ Perf.view_radius r' = Perf.view_radius r.
Proof.
  intros Hread.
  by destruct (read_ps_parsed_or_kept py_float py_int py_truediv parts r r' Hread)
    as (_ & _ & _ & ? & ?).
Qed.

(** X8. The two journal metrics do not depend on the probe: whenever
    [collect_performance] returns, its tps and view_radius are the newest
    values of the journal's lines if the journal query succeeded and None
    if it failed, whatever the process lookup and [ps] did; a failed
    journal query does not keep the probe from being read. *)
Theorem journal_metrics_ignore_probe (perf : Perf.t F) :
  collect_performance py_float py_int py_truediv subprocess_run = Ok perf ->
  let output := fst (run_cmd subprocess_run journal_tail 10) in
  let rc := snd (run_cmd subprocess_run journal_tail 10) in
  Perf.tps perf =
    (if rc =? 0 then newest tps_of (Text.splitlines output) else None) /\
  Perf.view_radius perf =
    (if rc =? 0 then newest view_radius_of (Text.splitlines output) else None).
Proof.
  unfold collect_performance.
  change (run_cmd subprocess_run _ 10) with (run_cmd subprocess_run journal_tail 10) at 1.
  destruct (run_cmd subprocess_run journal_tail 10) as [output rc]. simpl.
  fold (@no_metrics F).
  set (scanned := if rc =? 0 then (scan (rev (Text.splitlines output)) no_metrics).1
                  else no_metrics).
  assert (Perf.tps scanned =
            (if rc =? 0 then newest tps_of (Text.splitlines output) else None) /\
          Perf.view_radius scanned =
            (if rc =? 0 then newest view_radius_of (Text.splitlines output) else None))
    as [Ht Hv].
  { subst scanned. destruct (rc =? 0); [|done].
    by destruct (scan_fields (rev (Text.splitlines output)) (@no_metrics F))
      as (-> & -> & _). }
  destruct (get_java_pid subprocess_run) as [[pid|]|]; simpl;
    [|by intros [= <-]|done].
  destruct (Text.is_empty pid); [by intros [= <-]|].
  destruct (run_cmd subprocess_run _ 10) as [out code].
  destruct ((code =? 0) && negb (Text.is_empty out)); [|by intros [= <-]].
  intros Hread. apply read_ps_keeps_journal_fields in Hread as [-> ->]. by split.
Qed.

Lemma get_java_pid_not_empty pid :
  get_java_pid subprocess_run = Ok (Some pid) -> Text.is_empty pid = false.
Proof.
  unfold get_java_pid.
  destruct (run_cmd subprocess_run _ 10) as [output rc].
  destruct (_ || _); [done|].
  pose proof (first_word_of_run_cmd subprocess_run
                ["pgrep"; "-P"; Text.strip output; "java"] 10) as H1.
  destruct (run_cmd subprocess_run ["pgrep"; "-P"; Text.strip output; "java"] 10)
    as [out1 rc1].
  destruct ((rc1 =? 0) && negb (Text.is_empty out1)).
  { destruct (H1 eq_refl) as (w & -> & Hw). by intros [= <-]. }
  pose proof (first_word_of_run_cmd subprocess_run
                ["pgrep"; "-f"; "HytaleServer.jar"] 10) as H2.
  destruct (run_cmd subprocess_run ["pgrep"; "-f"; "HytaleServer.jar"] 10)
    as [out2 rc2].
  destruct ((rc2 =? 0) && negb (Text.is_empty out2)); [|done].
  destruct (H2 eq_refl) as (w & -> & Hw). by intros [= <-].
Qed.

(** X9. When the process is found and [ps] prints its three columns,
    [collect_performance] returns cpu_percent and ram_percent as the floats
    of the first two and ram_mb as the third, the resident size in
    kilobytes, divided by 1024; columns after the third are ignored. *)
Theorem probe_columns_are_read pid out p0 p1 p2 rest cpu mem rss mb :
  get_java_pid subprocess_run = Ok (Some pid) ->
  run_cmd subprocess_run (ps_query pid) 10 = (out, 0) ->
  Text.split out = p0 :: p1 :: p2 :: rest ->
  py_float p0 = Some cpu -> py_float p1 = Some mem ->
  py_int p2 = Some rss -> py_truediv rss 1024 = Some mb ->
  exists perf,
    collect_performance py_float py_int py_truediv subprocess_run = Ok perf /\
    Perf.cpu_percent perf = Some cpu /\
    Perf.ram_percent perf = Some mem /\
    Perf.ram_mb perf = Some mb.
Proof.
  intros Hpid Hps Hsplit Hcpu Hmem Hrss Hmb.
  unfold collect_performance.
  change (run_cmd subprocess_run _ 10) with (run_cmd subprocess_run journal_tail 10) at 1.
  destruct (run_cmd subprocess_run journal_tail 10) as [output rc].
  rewrite Hpid. simpl. rewrite (get_java_pid_not_empty pid Hpid).
  fold (ps_query pid). rewrite Hps.
  assert (Text.is_empty out = false) as ->.
  { destruct out; [done|done]. }
  simpl. unfold read_ps. rewrite Hsplit. simpl. rewrite Hcpu, Hmem. simpl.
  rewrite Hrss, Hmb. eexists. by repeat split.
Qed.

End Collect.

Lemma journal_metrics_ignore_probe_witness :
  exists perf,
    collect_performance float_of_token int_of_token exact_div running_host = Ok perf /\
    Perf.tps perf = None /\ Perf.view_radius perf = None /\
    Perf.cpu_percent perf = Some (25 # 2).
Proof.
  eexists. split; [vm_compute; reflexivity|].
  destruct (journal_metrics_ignore_probe float_of_token int_of_token exact_div
              running_host _ eq_refl) as [Ht Hv].
  split; [exact Ht|]. split; [exact Hv|]. reflexivity.
Defined.

Lemma probe_columns_are_read_witness :
  exists perf,
    collect_performance float_of_token int_of_token exact_div running_host = Ok perf /\
    Perf.cpu_percent perf = Some (25 # 2) /\
    Perf.ram_percent perf = Some (31 # 10) /\
    Perf.ram_mb perf = Some (2048 # 1).
Proof.
  apply (probe_columns_are_read float_of_token int_of_token exact_div running_host
           "813" "12.5  3.1 2097152" "12.5" "3.1" "2097152" []
           (25 # 2) (31 # 10) 2097152 (2048 # 1)); reflexivity.
Defined.
